(** * dnd-origins: the character attribute resolver

    A shallow embedding of [src/scripts/Generator/CharacterAttribute.js]
    and of the JavaScript built-ins it calls, followed by the properties
    of the resolver that the specification states.

    Modelling conventions.
    - A JavaScript string is a [string]; its characters are the ASCII code
      units (white space and line terminators are the ASCII ones).
    - A JavaScript number is an exact integer or [NaN]: dice totals, row
      bounds, row indices and the results of [parseInt] are integers.  The
      model is exact for the integers a double holds exactly and prints in
      positional notation.  A draw of [Math.random] is a rational, the
      value of the double drawn, and its product with the number of rows
      is rounded to the nearest double as the multiplication of two
      doubles is.
    - Row objects live in a heap of records addressed by position, so that
      [Object.assign] and assignment to a field are visible as such.
    - [Math.random], the dice library and the table data are not part of
      the sources; they are parameters of the development. *)

From Stdlib Require Import ZArith QArith Qround Qpower Lia Lqa Ascii.
From Stdlib Require Import DecimalString DecimalPos DecimalN DecimalZ.
From stdpp Require Import base option list gmap strings.

Close Scope Q_scope.
Open Scope Z_scope.

(** ** String helpers *)

Module Str.

(** [starts_with p s]: [p] is a prefix of [s]. *)
Fixpoint starts_with (p s : string) : bool :=
  match p, s with
  | "", _ => true
  | String a p', String b s' => if decide (a = b) then starts_with p' s' else false
  | String _ _, "" => false
  end.

Fixpoint drop (n : nat) (s : string) : string :=
  match n, s with
  | O, _ => s
  | S n', String _ s' => drop n' s'
  | S _, "" => ""
  end.

Fixpoint take (n : nat) (s : string) : string :=
  match n, s with
  | O, _ => ""
  | S n', String c s' => String c (take n' s')
  | S _, "" => ""
  end.

(** [index_of p s]: position of the first occurrence of [p] in [s]
    ([String.prototype.indexOf]). *)
Fixpoint index_of (p s : string) : option nat :=
  if starts_with p s then Some O
  else match s with
       | "" => None
       | String _ s' => S <$> index_of p s'
       end.

(** [occurs p s]: [p] occurs somewhere in [s]. *)
Definition occurs (p s : string) : Prop := ∃ l r, s = l +:+ p +:+ r.

(** [first_at p l r s]: [s] is [l ++ p ++ r] and no occurrence of [p]
    starts further to the left. *)
Definition first_at (p l r s : string) : Prop :=
  s = l +:+ p +:+ r ∧
  ∀ l' r', s = l' +:+ p +:+ r' → (String.length l ≤ String.length l')%nat.

End Str.

(** ** JavaScript values and the built-ins the resolver calls *)

Module JS.

(** A number: an exact integer or [NaN]. *)
Inductive number := Int (z : Z) | NaN.

(** The object the dice library returns from [Dice.roll]: [get('total')]
    reads [total]; [rolls] are the faces of the individual dice. *)
Record DiceRollResult := { total : Z; rolls : list Z }.

(** A value: a primitive, a reference to a row object in the heap, or a
    dice roll result. *)
Inductive value :=
| VUndefined
| VNull
| VBool (b : bool)
| VNumber (n : number)
| VString (s : string)
| VObject (l : nat)
| VDice (r : DiceRollResult).

(** [ToString]. *)
Definition number_to_string (n : number) : string :=
  match n with
  | Int z => NilZero.string_of_int (Z.to_int z)
  | NaN => "NaN"
  end.

Definition ToString (v : value) : string :=
  match v with
  | VUndefined => "undefined"
  | VNull => "null"
  | VBool true => "true"
  | VBool false => "false"
  | VNumber n => number_to_string n
  | VString s => s
  | VObject _ | VDice _ => "[object Object]"
  end.

(** [ToBoolean]. *)
Definition truthy (v : value) : bool :=
  match v with
  | VUndefined | VNull => false
  | VBool b => b
  | VNumber (Int z) => negb (z =? 0)
  | VNumber NaN => false
  | VString s => negb (bool_decide (s = ""))
  | VObject _ | VDice _ => true
  end.

(** [a === b].  Two dice results are never the same object here: a row's
    outcome value is not one. *)
Definition strict_eq (a b : value) : bool :=
  match a, b with
  | VUndefined, VUndefined => true
  | VNull, VNull => true
  | VBool x, VBool y => bool_decide (x = y)
  | VNumber (Int x), VNumber (Int y) => x =? y
  | VString x, VString y => bool_decide (x = y)
  | VObject x, VObject y => bool_decide (x = y)
  | _, _ => false
  end.

Fixpoint trim_start (s : string) : string :=
  match s with
  | String c s' => if Ascii.is_space c then trim_start s' else s
  | "" => ""
  end.

Definition trim_end (s : string) : string :=
  String.rev (trim_start (String.rev s)).

Definition trim (s : string) : string := trim_end (trim_start s).

(** The value of [c] as a digit of the given radix. *)
Definition digit_val (radix : Z) (c : ascii) : option Z :=
  let n := Z.of_N (N_of_ascii c) in
  let d := if (48 <=? n) && (n <=? 57) then Some (n - 48)
           else if (97 <=? n) && (n <=? 122) then Some (n - 87)
           else if (65 <=? n) && (n <=? 90) then Some (n - 55)
           else None in
  d ≫= λ d, if d <? radix then Some d else None.

(** Reads the longest run of digits at the start of [s]: the value read
    (on top of [acc]), the number of digits and the rest of the string. *)
Fixpoint span_digits (radix acc : Z) (n : nat) (s : string) : Z * nat * string :=
  match s with
  | String c s' =>
      match digit_val radix c with
      | Some d => span_digits radix (acc * radix + d) (S n) s'
      | None => (acc, n, s)
      end
  | "" => (acc, n, "")
  end.

Definition strip_sign (s : string) : Z * string :=
  match s with
  | String "-" r => (-1, r)
  | String "+" r => (1, r)
  | _ => (1, s)
  end.

(** [parseInt(string)] with no radix argument. *)
Definition parseInt_string (s : string) : number :=
  let '(sign, s2) := strip_sign (trim_start s) in
  let '(radix, s3) :=
    if Str.starts_with "0x" s2 || Str.starts_with "0X" s2
    then (16, Str.drop 2 s2) else (10, s2) in
  match span_digits radix 0 0 s3 with
  | (_, O, _) => NaN
  | (v, S _, _) => Int (sign * v)
  end.

Definition parseInt (v : value) : number := parseInt_string (ToString v).

(** The ExponentPart of a decimal literal, when the rest of the string
    must be exactly that (or empty). *)
Definition exponent_opt (r : string) : bool :=
  match r with
  | "" => true
  | String c r' =>
      (bool_decide (c = "e"%char) || bool_decide (c = "E"%char)) &&
      let '(_, n, r3) := span_digits 10 0 0 (strip_sign r').2 in
      negb (Nat.eqb n 0) && bool_decide (r3 = "")
  end.

Definition unsigned_decimal (u : string) : bool :=
  bool_decide (u = "Infinity") ||
  let '(_, n1, r1) := span_digits 10 0 0 u in
  match r1 with
  | String "." r2 =>
      let '(_, n2, r3) := span_digits 10 0 0 r2 in
      negb (Nat.eqb (n1 + n2) 0) && exponent_opt r3
  | _ => negb (Nat.eqb n1 0) && exponent_opt r1
  end.

Definition radix_literal (lower upper : string) (radix : Z) (t : string) : bool :=
  (Str.starts_with lower t || Str.starts_with upper t) &&
  let '(_, n, r) := span_digits radix 0 0 (Str.drop 2 t) in
  negb (Nat.eqb n 0) && bool_decide (r = "").

(** [StringToNumber] yields a number other than [NaN]: the trimmed
    string is empty or a StrNumericLiteral. *)
Definition is_numeric_string (s : string) : bool :=
  let t := trim s in
  bool_decide (t = "") ||
  radix_literal "0x" "0X" 16 t || radix_literal "0o" "0O" 8 t ||
  radix_literal "0b" "0B" 2 t ||
  unsigned_decimal (strip_sign t).2.

(** The global [isNaN]: [ToNumber] of the argument is [NaN]. *)
Definition isNaN (v : value) : bool :=
  match v with
  | VUndefined => true
  | VNull | VBool _ => false
  | VNumber NaN => true
  | VNumber (Int _) => false
  | VString s => negb (is_numeric_string s)
  | VObject _ | VDice _ => true
  end.

(** [GetSubstitution]: the text a replacement template [t] stands for,
    given the matched text, the text before and after it and the
    captures of the match. *)
Definition capture_ref (captures : list string) (idx : nat) : option string :=
  if bool_decide (1 ≤ idx ≤ length captures)%nat then captures !! (idx - 1)%nat
  else None.

Fixpoint GetSubstitution (matched before after : string)
    (captures : list string) (t : string) : string :=
  let go := GetSubstitution matched before after captures in
  match t with
  | "" => ""
  | String c t1 =>
      if bool_decide (c = "$"%char) then
        match t1 with
        | "" => "$"
        | String c1 t2 =>
            if bool_decide (c1 = "$"%char) then "$" +:+ go t2
            else if bool_decide (c1 = "&"%char) then matched +:+ go t2
            else if bool_decide (c1 = "`"%char) then before +:+ go t2
            else if bool_decide (c1 = "'"%char) then after +:+ go t2
            else
              match Ascii.is_nat c1 with
              | None => String "$" (go t1)
              | Some d1 =>
                  let one :=
                    match capture_ref captures d1 with
                    | Some cap => cap +:+ go t2
                    | None => String "$" (String c1 (go t2))
                    end in
                  match t2 with
                  | "" => one
                  | String c2 t3 =>
                      match Ascii.is_nat c2 with
                      | None => one
                      | Some d2 =>
                          let idx := (10 * d1 + d2)%nat in
                          if bool_decide (length captures < idx)%nat then one
                          else
                            match capture_ref captures idx with
                            | Some cap => cap +:+ go t3
                            | None => String "$" (String c1 (String c2 (go t3)))
                            end
                      end
                  end
              end
        end
      else String c (go t1)
  end.

(** [s.replace(pattern, replaceValue)] for a string [pattern] and a
    [replaceValue] that is not a function: the first occurrence only. *)
Definition String_replace (s pattern : string) (replaceValue : value) : string :=
  match Str.index_of pattern s with
  | None => s
  | Some n =>
      let before := Str.take n s in
      let after := Str.drop (n + String.length pattern) s in
      before +:+
      GetSubstitution pattern before after [] (ToString replaceValue) +:+
      after
  end.

(** The characters [.] does not match. *)
Definition is_line_terminator (c : ascii) : bool :=
  bool_decide (c = "010"%char) || bool_decide (c = "013"%char).

(** [(.*?)}}] at the start of [s]: the shortest run of characters other
    than line terminators that is followed by two closing braces; the
    run and what follows the braces. *)
Fixpoint lazy_body (s : string) : option (string * string) :=
  match s with
  | "" => None
  | String c s' =>
      if Str.starts_with "}}" s then Some ("", Str.drop 2 s)
      else if is_line_terminator c then None
      else '(inner, rest) ← lazy_body s'; Some (String c inner, rest)
  end.

(** [{{(.*?)}}] at the start of [s]. *)
Definition marker_at (s : string) : option (string * string) :=
  if Str.starts_with "{{" s then lazy_body (Str.drop 2 s) else None.

(** The leftmost match of [/{{(.*?)}}/] in [s]: the text before it, its
    capture and the text after it. *)
Fixpoint find_marker (s : string) : option (string * string * string) :=
  match marker_at s with
  | Some (inner, rest) => Some ("", inner, rest)
  | None =>
      match s with
      | "" => None
      | String c s' =>
          '(before, inner, after) ← find_marker s';
          Some (String c before, inner, after)
      end
  end.

(** [s.replace(/{{(.*?)}}/, replaceValue)]. *)
Definition replace_marker (s : string) (replaceValue : value) : string :=
  match find_marker s with
  | None => s
  | Some (before, inner, after) =>
      before +:+
      GetSubstitution ("{{" +:+ inner +:+ "}}") before after [inner]
        (ToString replaceValue) +:+
      after
  end.

(** [({{(.*?)}})+] at the start of [s]: one marker and, greedily, the
    markers that follow it directly; the matched text and the rest. *)
Fixpoint marker_chain (fuel : nat) (s : string) : option (string * string) :=
  match fuel with
  | O => None
  | S fuel' =>
      '(inner, rest) ← marker_at s;
      let g := "{{" +:+ inner +:+ "}}" in
      match marker_chain fuel' rest with
      | Some (more, rest') => Some (g +:+ more, rest')
      | None => Some (g, rest)
      end
  end.

Fixpoint match_markers_go (fuel : nat) (s : string) : list string :=
  match fuel with
  | O => []
  | S fuel' =>
      match marker_chain (String.length s) s with
      | Some (m, rest) => m :: match_markers_go fuel' rest
      | None =>
          match s with
          | "" => []
          | String _ s' => match_markers_go fuel' s'
          end
      end
  end.

(** [s.match(/({{(.*?)}})+/g)]: the matched texts from left to right;
    the empty list stands for [null]. *)
Definition match_markers (s : string) : list string :=
  match_markers_go (S (String.length s)) s.

(** [m.replace(/[{{}}]/g, '')]: every brace removed. *)
Fixpoint strip_braces (m : string) : string :=
  match m with
  | "" => ""
  | String c m' =>
      if bool_decide (c = "{"%char) || bool_decide (c = "}"%char)
      then strip_braces m' else String c (strip_braces m')
  end.

(** [/\s/g] replaced by a dash, then [toLowerCase]. *)
Definition lower (c : ascii) : ascii :=
  let n := N_of_ascii c in
  if ((65 <=? n) && (n <=? 90))%N then ascii_of_N (n + 32) else c.

Fixpoint dash_lower (s : string) : string :=
  match s with
  | "" => ""
  | String c s' =>
      String (if Ascii.is_space c then "-"%char else lower c) (dash_lower s')
  end.

(** *** Multiplication of doubles *)

(** The integer nearest to [m]; of two that are equally near, the even
    one. *)
Definition round_half_even (m : Q) : Z :=
  let f := Qfloor m in
  match (m - inject_Z f ?= 1 # 2)%Q with
  | Lt => f
  | Gt => f + 1
  | Eq => if Z.even f then f else f + 1
  end.

(** [floor(log2(x))] for a positive [x]. *)
Definition Qlog2 (x : Q) : Z :=
  let l := Z.log2 (Qnum x) - Z.log2 (Zpos (Qden x)) in
  if Qle_bool (2 ^ l) x then l else l - 1.

(** The double nearest to a positive [x], ties to the even mantissa: a
    mantissa of 53 bits, and a last place not below [2^-1074] (the
    subnormal numbers). *)
Definition nearest_double (x : Q) : Q :=
  let e := Z.max (Qlog2 x - 52) (-1074) in
  (inject_Z (round_half_even (x / 2 ^ e)) * 2 ^ e)%Q.

(** Round to nearest, ties to even, as every arithmetic operation on
    doubles rounds its exact result.  The results here are below the
    length of an array, so the overflow to [Infinity] is not written
    out. *)
Definition round_double (x : Q) : Q :=
  match Qnum x with
  | 0 => 0%Q
  | Zpos _ => nearest_double x
  | Zneg _ => (- nearest_double (- x))%Q
  end.

(** [x * y] for two doubles, given by their values. *)
Definition Number_multiply (x y : Q) : Q := round_double (x * y).

(** [SameValueZero], by which a [Set] tells its elements apart: [===],
    except that [NaN] is the same as [NaN]. *)
Definition same_value_zero (a b : value) : bool :=
  strict_eq a b ||
  match a, b with
  | VNumber NaN, VNumber NaN => true
  | _, _ => false
  end.

(** [opts.add(v)] on a [Set], held as the list of its elements in the
    order of insertion. *)
Definition Set_add (opts : list value) (v : value) : list value :=
  if existsb (same_value_zero v) opts then opts else opts ++ [v].

End JS.

Import JS.

(** ** Tables, rows and the heap *)

(** A row of a table.  A field that the row object does not have reads
    [undefined]: [VUndefined] for [outcome], [None] for the others.
    [min] and [max] are integers and [translate] is a string when
    present; [extra] is a pure function of the outcome text. *)
Record Row := {
  outcome : value;
  min : option Z;
  max : option Z;
  translate : option string;
  extra : option (string → value)
}.

(** The object [{}]. *)
Definition empty_row : Row :=
  {| outcome := VUndefined; min := None; max := None;
     translate := None; extra := None |}.

Definition with_translate (s : string) (r : Row) : Row :=
  {| outcome := outcome r; min := min r; max := max r;
     translate := Some s; extra := extra r |}.

(** A table: how a row is chosen (["random"] or a dice expression) and
    the addresses of its row objects, in order. *)
Record Table := { roll : string; outcomes : list nat }.

(** The configuration object of an attribute; [None] is a key that the
    object does not have. *)
Record Config := {
  cfg_tableName : option string;
  cfg_fetch : option value;
  cfg_rollModifier : option value
}.

(** The properties of a [CharacterAttribute] instance. *)
Record Attribute := {
  _config : option Config;
  _tableName : option string;
  table : option Table;
  _fetch : value;
  _data : value;
  rollResult : value;
  rollModifier : value
}.

(** ** The effects of the resolver *)

Inductive exn :=
| TypeError          (* a property of [undefined] was read *)
| DiceError.         (* the dice library threw *)

(** How a call ends: normally, by an exception, or not within the given
    recursion depth. *)
Inductive completion (A : Type) :=
| Normal (a : A)
| Throw (e : exn)
| OutOfFuel.
Arguments Normal {A} a.
Arguments Throw {A} e.
Arguments OutOfFuel {A}.

Section Generator.

(** The state of the outside world: what [Math.random] and the dice
    library draw from. *)
Context {W : Type}.
Variable Math_random : W → Q * W.
Variable Dice_roll : string → W → option DiceRollResult * W.

(** The global [TABLES]. *)
Variable TABLES : gmap string Table.

Record state := { heap : list Row; world : W }.

Definition M (A : Type) : Type := state → completion A * state.

Definition ret {A} (a : A) : M A := λ st, (Normal a, st).

Definition bind {A B} (m : M A) (k : A → M B) : M B :=
  λ st, match m st with
        | (Normal a, st') => k a st'
        | (Throw e, st') => (Throw e, st')
        | (OutOfFuel, st') => (OutOfFuel, st')
        end.

Definition throw {A} (e : exn) : M A := λ st, (Throw e, st).

Global Instance M_ret : MRet M := @ret.
Global Instance M_bind : MBind M := λ A B k m, bind m k.

(** [Math.random()]. *)
Definition random : M Q :=
  λ st, let '(u, w) := Math_random (world st) in
        (Normal u, {| heap := heap st; world := w |}).

(** [Dice.roll(expression)]. *)
Definition dice_roll (expression : string) : M DiceRollResult :=
  λ st, let '(r, w) := Dice_roll expression (world st) in
        (match r with Some r => Normal r | None => Throw DiceError end,
         {| heap := heap st; world := w |}).

(** A new object with the fields of [r]. *)
Definition alloc (r : Row) : M nat :=
  λ st, (Normal (length (heap st)),
         {| heap := heap st ++ [r]; world := world st |}).

(** The object at address [l]. *)
Definition read (l : nat) : M Row :=
  λ st, match heap st !! l with
        | Some r => (Normal r, st)
        | None => (Throw TypeError, st)
        end.

(** [o.translate = s] for the object at address [l]. *)
Definition write_translate (l : nat) (s : string) : M unit :=
  λ st, (Normal (),
         {| heap := alter (with_translate s) l (heap st); world := world st |}).

(** The fields read off a value [v] by [v.field]. *)
Definition fields (v : value) : M Row :=
  match v with
  | VObject l => read l
  | VUndefined | VNull => throw TypeError
  | _ => ret empty_row
  end.

(** [xs.forEach(x => result = f(result, x))]. *)
Fixpoint forEach {A B} (xs : list A) (f : B → A → M B) (result : B) : M B :=
  match xs with
  | [] => ret result
  | x :: xs' => result' ← f result x; forEach xs' f result'
  end.

(** *** Accessors *)

Definition new_object : Attribute :=
  {| _config := None; _tableName := None; table := None;
     _fetch := VUndefined; _data := VUndefined;
     rollResult := VUndefined; rollModifier := VUndefined |}.

Definition set__config (c : Config) (a : Attribute) : Attribute :=
  {| _config := Some c; _tableName := _tableName a; table := table a;
     _fetch := _fetch a; _data := _data a;
     rollResult := rollResult a; rollModifier := rollModifier a |}.

Definition toKey (str : string) : string := dash_lower str.

(** [set tableName]. *)
Definition set_tableName (tableName : string) (a : Attribute) : Attribute :=
  {| _config := _config a; _tableName := Some (toKey tableName);
     table := TABLES !! toKey tableName;
     _fetch := _fetch a; _data := _data a;
     rollResult := rollResult a; rollModifier := rollModifier a |}.

(** [set fetch]. *)
Definition set_fetch (v : value) (a : Attribute) : Attribute :=
  {| _config := _config a; _tableName := _tableName a; table := table a;
     _fetch := v; _data := _data a;
     rollResult := rollResult a; rollModifier := rollModifier a |}.

Definition set__data (v : value) (a : Attribute) : Attribute :=
  {| _config := _config a; _tableName := _tableName a; table := table a;
     _fetch := _fetch a; _data := v;
     rollResult := rollResult a; rollModifier := rollModifier a |}.

Definition set_rollResult (v : value) (a : Attribute) : Attribute :=
  {| _config := _config a; _tableName := _tableName a; table := table a;
     _fetch := _fetch a; _data := _data a;
     rollResult := v; rollModifier := rollModifier a |}.

Definition set_rollModifier (v : value) (a : Attribute) : Attribute :=
  {| _config := _config a; _tableName := _tableName a; table := table a;
     _fetch := _fetch a; _data := _data a;
     rollResult := rollResult a; rollModifier := v |}.

(** [get data]. *)
Definition data (a : Attribute) : value := _data a.

(** [get fetch]: [this._fetch || 'random']. *)
Definition fetch (a : Attribute) : value :=
  if truthy (_fetch a) then _fetch a else VString "random".

(** [set config]: every key of the configuration is assigned to the
    property of the same name. *)
Definition set_config (c : Config) (a : Attribute) : Attribute :=
  let a := set__config c a in
  let a := from_option (λ n, set_tableName n a) a (cfg_tableName c) in
  let a := from_option (λ v, set_fetch v a) a (cfg_fetch c) in
  from_option (λ v, set_rollModifier v a) a (cfg_rollModifier c).

(** [setConfig(config)]: a string is a table name. *)
Definition setConfig (config : string + Config) (a : Attribute) : Attribute :=
  match config with
  | inl tableName =>
      set_config {| cfg_tableName := Some tableName;
                    cfg_fetch := None; cfg_rollModifier := None |} a
  | inr c => set_config c a
  end.

(** [this.table], of which a property is read next. *)
Definition the_table (a : Attribute) : M Table :=
  match table a with
  | Some t => ret t
  | None => throw TypeError
  end.

(** *** Methods *)

(** [find(lookup)]. *)
Definition find (a : Attribute) (lookup : value) : M value :=
  let lookup :=
    if negb (isNaN lookup) then VNumber (parseInt lookup) else lookup in
  t ← the_table a;
  forEach (outcomes t)
    (λ result l,
       o ← read l;
       ret (if strict_eq lookup (outcome o) then VObject l else result))
    (VBool false).

(** [xs[i]] for a number [i]. *)
Definition at_index (xs : list nat) (i : Z) : value :=
  if i <? 0 then VUndefined
  else match xs !! Z.to_nat i with
       | Some l => VObject l
       | None => VUndefined
       end.

(** [randomRow()]: the index is [Math.floor] of the product of two
    doubles, the draw and the number of rows. *)
Definition randomRow (a : Attribute) : M (value * Attribute) :=
  u ← random;
  t ← the_table a;
  let i :=
    Qfloor (Number_multiply u (inject_Z (Z.of_nat (length (outcomes t))))) in
  let a := set_rollResult (VNumber (Int i)) a in
  ret (at_index (outcomes t) i, a).

(** [roll(dice)]. *)
Definition roll_expression (a : Attribute) (dice : string) : string :=
  if negb (strict_eq (rollModifier a) (VBool false))
  then String_replace dice "MOD" (rollModifier a)
  else dice.

Definition roll_ (a : Attribute) (dice : string) : M DiceRollResult :=
  dice_roll (roll_expression a dice).

(** [total >= o.min && total <= o.max]; a comparison with [undefined]
    is false. *)
Definition in_range (total : Z) (o : Row) : bool :=
  from_option (λ lo, lo <=? total) false (min o) &&
  from_option (λ hi, total <=? hi) false (max o).

(** [rollForRow()]. *)
Definition rollForRow (a : Attribute) : M (value * Attribute) :=
  t ← the_table a;
  r ← roll_ a (roll t);
  let a := set_rollResult (VDice r) a in
  result ← forEach (outcomes t)
    (λ result l,
       o ← read l;
       ret (if in_range (total r) o then VObject l else result))
    (VBool false);
  ret (result, a).

(** [toString()]. *)
Definition toString (a : Attribute) : M value :=
  d ← fields (data a);
  ret (match translate d with
       | Some s => if truthy (VString s) then VString s else outcome d
       | None => outcome d
       end).

Section Methods.

(** [new CharacterAttribute(tableName)], as far as the recursion depth
    allows. *)
Variable new_CharacterAttribute : string + Config → M Attribute.

(** The value that replaces a marker with keyword [match_] while the
    text is [outcome]. *)
Definition replacement_for (a : Attribute) (match_ outcome : string) : M value :=
  if bool_decide (is_Some (TABLES !! match_)) then
    table ← new_CharacterAttribute (inl match_);
    toString table
  else
    d ← (if bool_decide (match_ = "extra") then fields (data a)
         else ret empty_row);
    match extra d with
    | Some f => ret (f outcome)
    | None =>
        r ← dice_roll match_;
        ret (VNumber (Int (total r)))
    end.

(** [translateOutcome(outcome)]. *)
Definition translateOutcome (a : Attribute) (outcome : string) : M string :=
  forEach (match_markers outcome)
    (λ outcome m,
       let match_ := strip_braces m in
       replacement ← replacement_for a match_ outcome;
       ret (replace_marker outcome replacement))
    outcome.

(** [set data]. *)
Definition set_data (a : Attribute) (data : value) : M Attribute :=
  source ← match data with
           | VObject l => read l
           | _ => ret empty_row
           end;
  l ← alloc source;
  let a := set__data (VObject l) a in
  match translate source with
  | Some s =>
      if truthy (VString s) then
        s' ← translateOutcome a s;
        _ ← write_translate l s';
        ret a
      else ret a
  | None => ret a
  end.

(** [generate()]. *)
Definition generate (a : Attribute) : M Attribute :=
  a ← (if negb (strict_eq (fetch a) (VString "random"))
       then r ← find a (fetch a); set_data a r
       else ret a);
  if truthy (data a) then ret a
  else
    t ← the_table a;
    if strict_eq (VString (roll t)) (VString "random")
    then '(r, a) ← randomRow a; set_data a r
    else '(r, a) ← rollForRow a; set_data a r.

(** [constructor(config)]. *)
Definition constructor (config : string + Config) : M Attribute :=
  generate (setConfig config new_object).

End Methods.

(** [new CharacterAttribute(config)], with at most [depth] nested
    attributes under it. *)
Fixpoint new_CharacterAttribute (depth : nat) (config : string + Config) : M Attribute :=
  match depth with
  | O => λ st, (OutOfFuel, st)
  | S depth' => constructor (new_CharacterAttribute depth') config
  end.

(** *** The subclasses *)

(** [new LifeEvent()]. *)
Definition LifeEvent (depth : nat) : M Attribute :=
  new_CharacterAttribute depth (inl "life-events").

(** [new Relationship()]. *)
Definition Relationship (depth : nat) : M Attribute :=
  new_CharacterAttribute depth (inl "relationship").

(** The options that the constructor of [Race] hands to its super class;
    [None] is a call without argument. *)
Definition Race_options (options : option Config) : Config :=
  let tableName := default "race" (options ≫= cfg_tableName) in
  let fetch := options ≫= cfg_fetch in
  let rollModifier := options ≫= cfg_rollModifier in
  if negb (strict_eq (default VUndefined fetch) (VString "random")) then
    {| cfg_tableName := Some "race-full";
       cfg_fetch :=
         if strict_eq (default VUndefined fetch) (VString "random-full")
         then Some (VString "random") else fetch;
       cfg_rollModifier := rollModifier |}
  else
    {| cfg_tableName := Some tableName; cfg_fetch := fetch;
       cfg_rollModifier := rollModifier |}.

(** [new Race(options)]. *)
Definition Race (depth : nat) (options : option Config) : M Attribute :=
  new_CharacterAttribute depth (inr (Race_options options)).

End Generator.

Arguments state : clear implicits.
Arguments M : clear implicits.

(** ** The static methods *)

Module CharacterAttribute.

(** [CharacterAttribute.options(tableName)]: the set of the outcome
    values of a table. *)
Definition options {W : Type} (TABLES : gmap string Table)
    (tableName : string) : M W (list value) :=
  let key := toKey tableName in
  table ← match TABLES !! key with
          | Some t => ret t
          | None => throw TypeError
          end;
  forEach (outcomes table)
    (λ opts l, o ← read l; ret (Set_add opts (outcome o)))
    [].

End CharacterAttribute.

(** ** A concrete outside world

    The random source is a tape of draws in [[0,1)]; an exhausted tape
    reads [0]. *)

Module Tape.

Definition W : Type := list Q.

Definition Math_random (w : W) : Q * W :=
  match w with
  | u :: w' => (u, w')
  | [] => (0%Q, [])
  end.

(** Modelled from the spec: the dice library behind [Dice.roll] is not
    under src/.  An expression is [<count>d<faces>] with an optional
    [+<modifier>] or [-<modifier>]; anything else is an invalid
    expression. *)
Definition parse_dice (expression : string) : option (Z * Z * Z) :=
  let '(count, n1, r1) := span_digits 10 0 0 expression in
  match n1, r1 with
  | S _, String "d" r2 =>
      let '(faces, n2, r3) := span_digits 10 0 0 r2 in
      match n2, r3 with
      | S _, "" => Some (count, faces, 0)
      | S _, String c r4 =>
          let '(modifier, n3, r5) := span_digits 10 0 0 r4 in
          match n3, r5 with
          | S _, "" =>
              if bool_decide (c = "+"%char) then Some (count, faces, modifier)
              else if bool_decide (c = "-"%char) then Some (count, faces, - modifier)
              else None
          | _, _ => None
          end
      | _, _ => None
      end
  | _, _ => None
  end.

(** Modelled from the spec: [count] independent uniform integers in
    [[1,faces]]. *)
Fixpoint roll_dice (count : nat) (faces : Z) (w : W) : list Z * W :=
  match count with
  | O => ([], w)
  | S n =>
      let '(u, w1) := Math_random w in
      let '(ds, w2) := roll_dice n faces w1 in
      (Qfloor (u * inject_Z faces) + 1 :: ds, w2)
  end.

(** Modelled from the spec: the total is the sum of the dice plus the
    modifier. *)
Definition Dice_roll (expression : string) (w : W) : option DiceRollResult * W :=
  match parse_dice expression with
  | None => (None, w)
  | Some (count, faces, modifier) =>
      let '(ds, w') := roll_dice (Z.to_nat count) faces w in
      (Some {| total := foldr Z.add 0 ds + modifier; rolls := ds |}, w')
  end.

Definition new (TABLES : gmap string Table) (depth : nat)
    (config : string + Config) : M W Attribute :=
  new_CharacterAttribute Math_random Dice_roll TABLES depth config.

End Tape.

(** ** A world without chance

    Every draw of [Math.random] is [0] and the dice library always
    throws. *)

Module Still.

Definition W : Type := unit.

Definition Math_random (w : W) : Q * W := (0%Q, tt).

Definition Dice_roll (expression : string) (w : W) : option DiceRollResult * W :=
  (None, tt).

End Still.

(** ** Vocabulary of the properties *)

(** Every character is a decimal digit. *)
Fixpoint digits_only (s : string) : bool :=
  match s with
  | "" => true
  | String c s' => bool_decide (is_Some (Ascii.is_nat c)) && digits_only s'
  end.

(** No character is a dollar sign. *)
Fixpoint dollar_free (s : string) : bool :=
  match s with
  | "" => true
  | String c s' => negb (bool_decide (c = "$"%char)) && dollar_free s'
  end.

(** No character of the text satisfies [p]. *)
Fixpoint without (p : ascii → bool) (s : string) : bool :=
  match s with
  | "" => true
  | String c s' => negb (p c) && without p s'
  end.

Definition is_open (c : ascii) : bool := bool_decide (c = "{"%char).
Definition is_close (c : ascii) : bool := bool_decide (c = "}"%char).

(** The text holds a marker: two opening braces and, further on, two
    closing braces. *)
Definition has_marker (s : string) : Prop :=
  ∃ l k r, s = l +:+ "{{" +:+ k +:+ "}}" +:+ r.

Definition is_upper (c : ascii) : bool :=
  let n := N_of_ascii c in ((65 <=? n) && (n <=? 90))%N.

(** A string in key format: no white space and no upper-case letter. *)
Definition key_format (s : string) : bool :=
  without Ascii.is_space s && without is_upper s.

(** [o'] has the fields of [o], the template apart. *)
Definition copy_of (o o' : Row) : Prop :=
  outcome o' = outcome o ∧ min o' = min o ∧ max o' = max o ∧
  extra o' = extra o.

(** [total] lies in the range of the row. *)
Definition contains (o : Row) (total : Z) : Prop :=
  ∃ lo hi, min o = Some lo ∧ max o = Some hi ∧ lo ≤ total ≤ hi.

(** The row has no template that [set data] would expand. *)
Definition untemplated (o : Row) : Prop :=
  translate o = None ∨ translate o = Some "".

(** [x] is the value of a double: a mantissa below [2^53] in absolute
    value at an exponent not below that of the subnormal numbers. *)
Definition is_double (x : Q) : Prop :=
  ∃ m e : Z, Z.abs m < 2 ^ 53 ∧ -1074 ≤ e ∧ (x == inject_Z m * 2 ^ e)%Q.

(** No two elements of the list are the same value for a [Set]. *)
Definition distinct (opts : list value) : Prop :=
  ∀ i j v w, opts !! i = Some v → opts !! j = Some w →
             same_value_zero v w = true → i = j.

(** The outcome values a key of [find] can be strictly equal to. *)
Definition findable (v : value) : Prop :=
  match v with
  | VUndefined | VNumber (Int _) | VObject _ => True
  | VString s => is_numeric_string s = false
  | VNull | VBool _ | VNumber NaN | VDice _ => False
  end.

Section Vocabulary.

Context {W : Type}.
Variable Math_random : W → Q * W.
Variable Dice_roll : string → W → option DiceRollResult * W.
Variable TABLES : gmap string Table.

(** The addresses [ls] hold objects. *)
Definition rows_exist (h : list Row) (ls : list nat) : Prop :=
  Forall (λ l, is_Some (h !! l)) ls.

(** The row a scan ends with: the last one that satisfies [p]. *)
Definition last_where (p : Row → bool) (h : list Row) (ls : list nat)
    (init : value) : value :=
  foldl (λ result l,
           match h !! l with
           | Some o => if p o then VObject l else result
           | None => result
           end) init ls.

(** The key [find] compares the rows with. *)
Definition lookup_key (lookup : value) : value :=
  if negb (isNaN lookup) then VNumber (parseInt lookup) else lookup.

(** The integers that print in positional notation. *)
Definition positional (z : Z) : Prop := Z.abs z < 10 ^ 21.

(** The integers a number holds exactly, so that reading their decimal
    string gives them back. *)
Definition safe_integer (z : Z) : Prop := Z.abs z < 2 ^ 53.

(** The outcome values that [find] leaves as they are: an integer that
    prints in positional notation, and a string that does not read as a
    number. *)
Definition finds_itself (v : value) : Prop :=
  match v with
  | VNumber (Int z) => positional z
  | VString s => is_numeric_string s = false
  | _ => False
  end.

(** The kinds of value [rollResult] holds. *)
Definition roll_record (v : value) : Prop :=
  v = VUndefined ∨ (∃ i, v = VNumber (Int i)) ∨ (∃ r, v = VDice r).

(** [m] leaves every object that exists when it starts as it is. *)
Definition extends {A} (m : M W A) : Prop :=
  ∀ st, heap st `prefix_of` heap (m st).2.

(** [m] allocates nothing and writes nothing. *)
Definition keeps_heap {A} (m : M W A) : Prop :=
  ∀ st, heap (m st).2 = heap st.

(** A run of resolutions, one after the other. *)
Fixpoint resolve_all (depth : nat) (configs : list (string + Config))
    (st : state W) : state W :=
  match configs with
  | [] => st
  | config :: configs' =>
      resolve_all depth configs'
        (new_CharacterAttribute Math_random Dice_roll TABLES depth config st).2
  end.

(** The expansion as the specification words it: the extra-text
    function receives the original template at every marker. *)
Definition expand_as_specified (sub : string + Config → M W Attribute)
    (a : Attribute) (template : string) : M W string :=
  forEach (match_markers template)
    (λ text m,
       v ← replacement_for Dice_roll TABLES sub a (strip_braces m) template;
       ret (replace_marker text v))
    template.

End Vocabulary.

(** ** Sample tables

    The table data are not under src/.  This is a small table store on
    which the properties are exercised: rows 0-2 are the relationship
    table and rows 3-4 the background table of the scenarios in the
    specification; the other rows overlap in range, hold a numeric-looking
    string, or carry a template. *)

Module Sample.

Definition plain (v : value) : Row :=
  {| outcome := v; min := None; max := None;
     translate := None; extra := None |}.

Definition ranged (lo hi : Z) (s : string) : Row :=
  {| outcome := VString s; min := Some lo; max := Some hi;
     translate := None; extra := None |}.

Definition told (s template : string) (f : option (string → value)) : Row :=
  {| outcome := VString s; min := None; max := None;
     translate := Some template; extra := f |}.

Definition rows : list Row :=
  [ plain (VString "Friend"); plain (VString "Rival");
    plain (VString "Stranger");
    ranged 1 50 "Peasant"; ranged 51 100 "Noble";
    ranged 1 50 "Commoner"; ranged 1 100 "Anyone";
    plain (VString "3"); plain (VNumber (Int 3));
    told "Tale" "{{1d1}} {{extra}}"
      (Some (λ s, VNumber (Int (Z.of_nat (String.length s)))));
    told "Bond" "Met a {{relationship}}" None ].

Definition TABLES : gmap string Table :=
  {[ "relationship" := {| roll := "random"; outcomes := [0; 1; 2]%nat |};
     "background" := {| roll := "1d100"; outcomes := [3; 4]%nat |};
     "standing" := {| roll := "1d100+MOD"; outcomes := [3; 4]%nat |};
     "overlap" := {| roll := "1d100"; outcomes := [5; 6]%nat |};
     "siblings" := {| roll := "random"; outcomes := [7; 8]%nat |};
     "tale" := {| roll := "random"; outcomes := [9]%nat |};
     "bond" := {| roll := "random"; outcomes := [10]%nat |} ]}.

(** The state before any resolution, with the given tape of draws. *)
Definition start (tape : list Q) : state Tape.W :=
  {| heap := rows; world := tape |}.

(** The state once the objects [added] have been allocated. *)
Definition after (added : list Row) (tape : list Q) : state Tape.W :=
  {| heap := rows ++ added; world := tape |}.

Definition options (tableName : string) (fetch rollModifier : option value)
    : string + Config :=
  inr {| cfg_tableName := Some tableName; cfg_fetch := fetch;
         cfg_rollModifier := rollModifier |}.

Definition attribute (config : string + Config) : Attribute :=
  setConfig TABLES config new_object.

Definition new (depth : nat) (config : string + Config) : M Tape.W Attribute :=
  Tape.new TABLES depth config.

Definition minus_two : Attribute :=
  attribute (options "standing" None (Some (VNumber (Int (-2))))).

Definition standing : Table :=
  {| roll := "1d100+MOD"; outcomes := [3; 4]%nat |}.

Definition plus_five : string + Config :=
  options "standing" None (Some (VNumber (Int 5))).

Definition relationship : Table :=
  {| roll := "random"; outcomes := [0; 1; 2]%nat |}.

(** The double just below [2/3]: its product with 3 rounds to 2. *)
Definition below_two_thirds : Q := (6004799503160661 # 9007199254740992)%Q.

(** The attribute whose data are the [Tale] row. *)
Definition tale : Attribute := set__data (VObject 9) (attribute (inl "tale")).

End Sample.

(** Tables at the edges, in a world where every draw is 0 and nothing
    can be rolled: a table whose only row refers to the table itself, a
    table whose outcome holds a replacement pattern, and a table
    without rows. *)
Module Edge.

Definition rows : list Row :=
  [ Sample.told "Echo" "An {{echo}} of it" None;
    Sample.plain (VString "5 $& coins") ].

Definition TABLES : gmap string Table :=
  {[ "echo" := {| roll := "random"; outcomes := [0]%nat |};
     "price" := {| roll := "random"; outcomes := [1]%nat |};
     "void" := {| roll := "random"; outcomes := [] |} ]}.

Definition start : state Still.W := {| heap := rows; world := tt |}.

(** The state once the objects [added] have been allocated. *)
Definition after (added : list Row) : state Still.W :=
  {| heap := rows ++ added; world := tt |}.

Definition attribute (config : string + Config) : Attribute :=
  setConfig TABLES config new_object.

Definition new (depth : nat) (config : string + Config)
    : M Still.W Attribute :=
  new_CharacterAttribute Still.Math_random Still.Dice_roll TABLES depth config.

End Edge.

(** ** Facts about strings *)

Module StrFacts.
Import Str.

Lemma app_cons (c : ascii) (s t : string) :
  String c s +:+ t = String c (s +:+ t).
Proof. done. Qed.

Lemma app_nil_l (s : string) : "" +:+ s = s.
Proof. done. Qed.

Lemma app_nil_r (s : string) : s +:+ "" = s.
Proof. induction s as [|c s IH]; [done|]. by rewrite app_cons, IH. Qed.

Lemma app_assoc (s t u : string) : (s +:+ t) +:+ u = s +:+ t +:+ u.
Proof. induction s as [|c s IH]; [done|]. by rewrite !app_cons, IH. Qed.

Lemma app_length (s t : string) :
  String.length (s +:+ t) = (String.length s + String.length t)%nat.
Proof. induction s as [|c s IH]; [done|]. rewrite app_cons. cbn. by rewrite IH. Qed.

Lemma starts_with_spec (p s : string) :
  starts_with p s = true ↔ ∃ r, s = p +:+ r.
Proof.
  revert s. induction p as [|a p IH]; intros s; cbn.
  - split; [eauto|done].
  - destruct s as [|b s].
    + split; [done|]. intros [r Hr]. discriminate.
    + case_decide as Hab.
      * subst b. rewrite IH. split.
        -- intros [r ->]. by exists r.
        -- intros [r Hr]. rewrite app_cons in Hr. injection Hr as ->. by exists r.
      * split; [done|]. intros [r Hr]. rewrite app_cons in Hr. congruence.
Qed.

Lemma starts_with_app (p r : string) : starts_with p (p +:+ r) = true.
Proof. apply starts_with_spec. by exists r. Qed.

Lemma drop_app (p r : string) : drop (String.length p) (p +:+ r) = r.
Proof. induction p as [|a p IH]; [done|]. rewrite app_cons. cbn. apply IH. Qed.

Lemma take_app (p r : string) : take (String.length p) (p +:+ r) = p.
Proof. induction p as [|a p IH]; [done|]. rewrite app_cons. cbn. by rewrite IH. Qed.

Lemma starts_with_drop (p s : string) :
  starts_with p s = true → s = p +:+ drop (String.length p) s.
Proof.
  intros [r Hr]%starts_with_spec. generalize dependent s.
  intros s ->. by rewrite drop_app.
Qed.

Lemma take_drop (n : nat) (s : string) : take n s +:+ drop n s = s.
Proof.
  revert s. induction n as [|n IH]; intros [|c s]; cbn; try done.
  by rewrite app_cons, IH.
Qed.

Lemma index_of_unfold (p s : string) :
  index_of p s =
    if starts_with p s then Some O
    else match s with
         | "" => None
         | String _ s' => S <$> index_of p s'
         end.
Proof. by destruct s. Qed.

Lemma index_of_None (p s : string) :
  index_of p s = None → ¬ occurs p s.
Proof.
  induction s as [|c s IH]; rewrite index_of_unfold.
  - destruct (starts_with p "") eqn:E; [done|].
    intros _ (l & r & Hlr). destruct l as [|c l]; [|done].
    rewrite app_nil_l in Hlr.
    assert (starts_with p "" = true) by (apply starts_with_spec; eauto).
    congruence.
  - destruct (starts_with p (String c s)) eqn:E; [done|].
    destruct (index_of p s) as [n|] eqn:En; [done|].
    intros _ (l & r & Hlr). destruct l as [|c' l].
    + rewrite app_nil_l in Hlr.
      assert (starts_with p (String c s) = true)
        by (apply starts_with_spec; eauto).
      congruence.
    + rewrite app_cons in Hlr. injection Hlr as -> ->.
      apply IH; [done|]. by exists l, r.
Qed.

Lemma index_of_Some (p s : string) (n : nat) :
  index_of p s = Some n →
  first_at p (take n s) (drop (n + String.length p) s) s ∧
  String.length (take n s) = n.
Proof.
  revert n. induction s as [|c s IH]; intros n; rewrite index_of_unfold.
  - destruct (starts_with p "") eqn:E; [|done].
    intros [= <-]. split; [|done]. split; [|cbn; lia].
    cbn [take Nat.add]. rewrite app_nil_l. by apply starts_with_drop.
  - destruct (starts_with p (String c s)) eqn:E.
    + intros [= <-]. split; [|done]. split; [|cbn; lia].
      cbn [take Nat.add]. rewrite app_nil_l. by apply starts_with_drop.
    + destruct (index_of p s) as [m|] eqn:Em; [|done].
      intros [= <-]. destruct (IH m eq_refl) as [[Heq Hmin] Hlen].
      split; [|cbn; by rewrite Hlen]. split.
      * cbn [take drop Nat.add]. rewrite app_cons. by rewrite <- Heq.
      * intros l' r' Hlr. destruct l' as [|c' l'].
        -- rewrite app_nil_l in Hlr.
           assert (starts_with p (String c s) = true)
             by (apply starts_with_spec; eauto).
           congruence.
        -- rewrite app_cons in Hlr. injection Hlr as -> Hs.
           specialize (Hmin _ _ Hs). cbn. lia.
Qed.

Lemma first_at_index_of (p l r s : string) :
  first_at p l r s → index_of p s = Some (String.length l).
Proof.
  intros [Heq Hmin]. destruct (index_of p s) as [n|] eqn:E.
  - apply index_of_Some in E as [[Heq' Hmin'] Hlen].
    specialize (Hmin _ _ Heq'). specialize (Hmin' _ _ Heq).
    f_equal. lia.
  - apply index_of_None in E. destruct E. by exists l, r.
Qed.

End StrFacts.

(** ** Facts about the built-ins *)

Module JSFacts.
Import StrFacts.

Lemma GetSubstitution_dollar_free matched before after captures t :
  dollar_free t = true →
  GetSubstitution matched before after captures t = t.
Proof.
  induction t as [|c t IH]; [done|]. cbn [dollar_free GetSubstitution].
  intros [Hc Ht]%andb_true_iff. apply negb_true_iff in Hc. rewrite Hc.
  by rewrite IH.
Qed.

Lemma digits_only_uint (d : Decimal.uint) :
  digits_only (NilEmpty.string_of_uint d) = true.
Proof. induction d; cbn; done. Qed.

Lemma digits_only_dollar_free (s : string) :
  digits_only s = true → dollar_free s = true.
Proof.
  induction s as [|c s IH]; [done|]. cbn.
  intros [Hc Hs]%andb_true_iff. rewrite IH by done.
  apply bool_decide_eq_true in Hc. rewrite andb_true_r.
  apply negb_true_iff, bool_decide_eq_false. intros ->.
  by destruct Hc as [? [=]].
Qed.

Lemma number_to_string_dollar_free (n : number) :
  dollar_free (number_to_string n) = true.
Proof.
  destruct n as [z|]; [|done]. unfold number_to_string.
  destruct z as [|p|p]; cbn [Z.to_int NilZero.string_of_int]; try done.
  - unfold NilZero.string_of_uint.
    destruct (Pos.to_uint p) eqn:E; try done;
      rewrite <- E; apply digits_only_dollar_free, digits_only_uint.
  - unfold NilZero.string_of_uint. cbn [dollar_free]. 
    destruct (Pos.to_uint p) eqn:E; try done;
      rewrite <- E; apply digits_only_dollar_free, digits_only_uint.
Qed.

(** A decimal digit is none of the characters that [parseInt] and the
    replacement templates treat specially. *)
Lemma digit_plain (c : ascii) :
  is_Some (Ascii.is_nat c) →
  Ascii.is_space c = false ∧ c ≠ "-"%char ∧ c ≠ "+"%char ∧
  c ≠ "x"%char ∧ c ≠ "X"%char.
Proof.
  intros [n Hn].
  destruct c as [[] [] [] [] [] [] [] []]; try discriminate Hn; done.
Qed.

Lemma digit_first (c : ascii) (s : string) :
  is_Some (Ascii.is_nat c) →
  trim_start (String c s) = String c s ∧
  strip_sign (String c s) = (1, String c s).
Proof.
  intros [n Hn].
  destruct c as [[] [] [] [] [] [] [] []]; try discriminate Hn; done.
Qed.

Lemma digits_no_hex_prefix (s : string) :
  digits_only s = true →
  Str.starts_with "0x" s = false ∧ Str.starts_with "0X" s = false.
Proof.
  destruct s as [|c [|c2 s]]; [done| |].
  - intros _. cbn. by case_decide.
  - cbn [digits_only]. intros [_ [Hc2 _]%andb_true_iff]%andb_true_iff.
    apply bool_decide_eq_true, digit_plain in Hc2 as (_ & _ & _ & Hx & HX).
    cbn. repeat case_decide; done.
Qed.

(** Reading back the digits of a decimal numeral, most significant
    first; [A] holds the digits read before, least significant first. *)
Lemma span_digits_uint (d A : Decimal.uint) (n : nat) :
  span_digits 10 (Z.of_N (DecimalPos.Unsigned.of_lu A)) n
    (NilEmpty.string_of_uint d) =
  (Z.of_N (DecimalPos.Unsigned.of_lu (Decimal.revapp d A)),
   (n + String.length (NilEmpty.string_of_uint d))%nat, "").
Proof.
  revert A n.
  induction d as [|d IH|d IH|d IH|d IH|d IH|d IH|d IH|d IH|d IH|d IH];
    intros A n; cbn [NilEmpty.string_of_uint span_digits Decimal.revapp];
    [by rewrite Nat.add_0_r|..].
  all: match goal with
       | |- context [digit_val 10 ?c] =>
           let v := eval vm_compute in (digit_val 10 c) in
           change (digit_val 10 c) with v
       end.
  all: cbn [String.length]; rewrite <- Nat.add_succ_comm.
  all: match goal with
       | |- _ = (Z.of_N (DecimalPos.Unsigned.of_lu (Decimal.revapp _ ?A')), _, _) =>
           rewrite <- (IH A' (S n)); f_equal;
           cbn [DecimalPos.Unsigned.of_lu]; lia
       end.
Qed.

Lemma span_digits_pos (p : positive) :
  span_digits 10 0 0 (NilEmpty.string_of_uint (Pos.to_uint p)) =
  (Z.pos p, String.length (NilEmpty.string_of_uint (Pos.to_uint p)), "").
Proof.
  pose proof (span_digits_uint (Pos.to_uint p) Decimal.Nil 0) as H.
  change (Z.of_N (DecimalPos.Unsigned.of_lu Decimal.Nil)) with 0 in H.
  rewrite H. cbn [Nat.add]. f_equal. f_equal.
  change (Decimal.revapp (Pos.to_uint p) Decimal.Nil)
    with (Decimal.rev (Pos.to_uint p)).
  rewrite <- DecimalPos.Unsigned.of_uint_alt, DecimalPos.Unsigned.of_to.
  done.
Qed.

Lemma string_of_uint_nonempty (d : Decimal.uint) :
  d ≠ Decimal.Nil → ∃ c s, NilEmpty.string_of_uint d = String c s.
Proof. destruct d; [done|..]; intros _; cbn; eauto. Qed.

Lemma NilZero_string_of_uint_pos (p : positive) :
  NilZero.string_of_uint (Pos.to_uint p) =
  NilEmpty.string_of_uint (Pos.to_uint p).
Proof.
  pose proof (DecimalPos.Unsigned.to_uint_nonnil p) as Hnil.
  unfold NilZero.string_of_uint. by destruct (Pos.to_uint p).
Qed.

(** [parseInt] reads an integer back from its string form. *)
Lemma parseInt_Int (z : Z) : parseInt (VNumber (Int z)) = Int z.
Proof.
  destruct z as [|p|p]; [done|..];
    unfold parseInt, ToString, number_to_string;
    cbn [Z.to_int NilZero.string_of_int];
    rewrite NilZero_string_of_uint_pos;
    pose proof (digits_only_uint (Pos.to_uint p)) as Hd;
    pose proof (span_digits_pos p) as Hspan;
    destruct (string_of_uint_nonempty (Pos.to_uint p)
                (DecimalPos.Unsigned.to_uint_nonnil p)) as (c & s & Hs);
    rewrite Hs in *;
    assert (is_Some (Ascii.is_nat c)) as Hc
      by (cbn in Hd; apply andb_true_iff in Hd as [Hc _];
          by apply bool_decide_eq_true in Hc);
    destruct (digits_no_hex_prefix _ Hd) as [Hx HX];
    unfold parseInt_string.
  - destruct (digit_first c s Hc) as [-> ->].
    rewrite Hx, HX. cbn [orb]. rewrite Hspan. cbn [String.length].
    f_equal; lia.
  - change (trim_start (String "-" (String c s))) with (String "-" (String c s)).
    change (strip_sign (String "-" (String c s))) with (-1, String c s).
    cbv beta iota. rewrite Hx, HX. cbn [orb]. rewrite Hspan. cbn [String.length].
    f_equal; lia.
Qed.

(** *** The markers of a template *)

Lemma lazy_body_spec (s inner rest : string) :
  lazy_body s = Some (inner, rest) → s = inner +:+ "}}" +:+ rest.
Proof.
  revert inner. induction s as [|c s IH]; intros inner; [done|].
  cbn [lazy_body].
  destruct (Str.starts_with "}}" (String c s)) eqn:E.
  { intros [= <- <-]. by apply starts_with_drop in E. }
  destruct (is_line_terminator c); [done|].
  destruct (lazy_body s) as [[i r]|]; [|done].
  cbn. intros [= <- <-]. rewrite app_cons. f_equal. by apply IH.
Qed.

Lemma marker_at_spec (s inner rest : string) :
  marker_at s = Some (inner, rest) →
  s = "{{" +:+ inner +:+ "}}" +:+ rest.
Proof.
  unfold marker_at. destruct (Str.starts_with "{{" s) eqn:E; [|done].
  intros H%lazy_body_spec. apply starts_with_drop in E.
  rewrite E. f_equal. exact H.
Qed.

Lemma marker_at_has_marker (s inner rest : string) :
  marker_at s = Some (inner, rest) → has_marker s.
Proof. intros H%marker_at_spec. by exists "", inner, rest. Qed.

Lemma has_marker_cons (c : ascii) (s : string) :
  has_marker s → has_marker (String c s).
Proof. intros (l & k & r & ->). by exists (String c l), k, r. Qed.

Lemma marker_chain_marker_at (n : nat) (s m rest : string) :
  marker_chain n s = Some (m, rest) → is_Some (marker_at s).
Proof.
  destruct n as [|n]; [done|]. cbn [marker_chain].
  destruct (marker_at s); [eauto|done].
Qed.

Lemma match_markers_go_plain (n : nat) (s : string) :
  ¬ has_marker s → match_markers_go n s = [].
Proof.
  revert s. induction n as [|n IH]; intros s Hno; [done|].
  cbn [match_markers_go].
  destruct (marker_chain _ s) as [[m rest]|] eqn:E.
  - apply marker_chain_marker_at in E as [[inner r] E].
    destruct Hno. by eapply marker_at_has_marker.
  - destruct s as [|c s]; [done|]. apply IH.
    intros H. apply Hno. by apply has_marker_cons.
Qed.

Lemma no_braces_no_marker (s : string) :
  Str.index_of "{{" s = None → ¬ has_marker s.
Proof.
  intros H%index_of_None (l & k & r & Hs). apply H. by exists l, (k +:+ "}}" +:+ r).
Qed.

Lemma match_markers_plain (s : string) :
  ¬ has_marker s → match_markers s = [].
Proof. apply match_markers_go_plain. Qed.

(** *** The recursion depth of the matcher is enough *)

Lemma marker_at_shorter (s inner rest : string) :
  marker_at s = Some (inner, rest) →
  (String.length rest + 4 ≤ String.length s)%nat.
Proof.
  intros ->%marker_at_spec. rewrite !app_length. cbn. lia.
Qed.

Lemma marker_chain_shorter (n : nat) (s m rest : string) :
  marker_chain n s = Some (m, rest) →
  (String.length rest + 4 ≤ String.length s)%nat.
Proof.
  revert s m rest. induction n as [|n IH]; intros s m rest; [done|].
  cbn [marker_chain].
  destruct (marker_at s) as [[inner r]|] eqn:E; [|done]. cbn.
  apply marker_at_shorter in E.
  destruct (marker_chain n r) as [[more r']|] eqn:E'.
  - intros [= <- <-]. apply IH in E'. lia.
  - intros [= <- <-]. done.
Qed.

Lemma marker_chain_fuel (n m : nat) (s : string) :
  (String.length s ≤ n)%nat → (String.length s ≤ m)%nat →
  marker_chain n s = marker_chain m s.
Proof.
  revert m s. induction n as [|n IH]; intros m s Hn Hm.
  - destruct s; [|cbn in Hn; lia]. by destruct m.
  - destruct m as [|m].
    + destruct s; [done|cbn in Hm; lia].
    + cbn [marker_chain].
      destruct (marker_at s) as [[inner r]|] eqn:E; [|done]. cbn.
      apply marker_at_shorter in E.
      by rewrite (IH m r) by lia.
Qed.

(** [({{(.*?)}})+] at the start of [s], without the depth. *)
Lemma marker_chain_eq (s : string) :
  marker_chain (String.length s) s =
    match marker_at s with
    | None => None
    | Some (inner, rest) =>
        match marker_chain (String.length rest) rest with
        | Some (more, rest') => Some ("{{" +:+ inner +:+ "}}" +:+ more, rest')
        | None => Some ("{{" +:+ inner +:+ "}}", rest)
        end
    end.
Proof.
  destruct (marker_at s) as [[inner rest]|] eqn:E.
  - pose proof (marker_at_shorter _ _ _ E) as Hlen.
    destruct (String.length s) as [|n] eqn:En; [lia|].
    cbn [marker_chain]. rewrite E. cbn.
    rewrite (marker_chain_fuel n (String.length rest) rest) by lia.
    destruct (marker_chain _ rest) as [[more rest']|]; [|done].
    by rewrite !app_assoc.
  - destruct (String.length s); [done|]. cbn [marker_chain]. by rewrite E.
Qed.

Lemma match_markers_go_fuel (n m : nat) (s : string) :
  (String.length s < n)%nat → (String.length s < m)%nat →
  match_markers_go n s = match_markers_go m s.
Proof.
  revert m s. induction n as [|n IH]; intros m s Hn Hm; [lia|].
  destruct m as [|m]; [lia|]. cbn [match_markers_go].
  destruct (marker_chain _ s) as [[mt rest]|] eqn:E.
  - apply marker_chain_shorter in E. f_equal. apply IH; lia.
  - destruct s as [|c s]; [done|]. cbn in Hn, Hm. apply IH; lia.
Qed.

(** [s.match(/({{(.*?)}})+/g)], without the depth. *)
Lemma match_markers_eq (s : string) :
  match_markers s =
    match marker_chain (String.length s) s with
    | Some (m, rest) => m :: match_markers rest
    | None =>
        match s with
        | "" => []
        | String _ s' => match_markers s'
        end
    end.
Proof.
  unfold match_markers at 1. cbn [match_markers_go].
  destruct (marker_chain _ s) as [[mt rest]|] eqn:E.
  - apply marker_chain_shorter in E. f_equal.
    apply match_markers_go_fuel; lia.
  - destruct s as [|c s]; [done|].
    apply match_markers_go_fuel; cbn; lia.
Qed.

(** *** A template with one marker *)

Lemma without_app (p : ascii → bool) (s t : string) :
  without p (s +:+ t) = without p s && without p t.
Proof.
  induction s as [|c s IH]; [done|]. rewrite app_cons. cbn.
  by rewrite IH, andb_assoc.
Qed.

Lemma without_open_no_marker (s : string) :
  without is_open s = true → ¬ has_marker s.
Proof.
  intros Hs (l & k & r & ->). rewrite !without_app in Hs. cbn in Hs.
  by rewrite andb_false_r in Hs.
Qed.

Lemma lazy_body_simple (k r : string) :
  without is_close k = true → without is_line_terminator k = true →
  lazy_body (k +:+ "}}" +:+ r) = Some (k, r).
Proof.
  induction k as [|c k IH]; [done|]. cbn [without].
  intros [Hc Hk]%andb_true_iff [Hc' Hk']%andb_true_iff.
  rewrite app_cons. cbn [lazy_body].
  apply negb_true_iff in Hc, Hc'. rewrite Hc'.
  unfold is_close in Hc. apply bool_decide_eq_false in Hc.
  cbn [Str.starts_with]. rewrite decide_False by done.
  by rewrite IH.
Qed.

Lemma marker_at_simple (k r : string) :
  without is_close k = true → without is_line_terminator k = true →
  marker_at ("{{" +:+ k +:+ "}}" +:+ r) = Some (k, r).
Proof. intros Hk Hk'. unfold marker_at. cbn. by apply lazy_body_simple. Qed.

Lemma marker_at_not_open (c : ascii) (s : string) :
  is_open c = false → marker_at (String c s) = None.
Proof.
  intros Hc%bool_decide_eq_false. unfold marker_at. cbn.
  by rewrite decide_False.
Qed.

Lemma marker_chain_not_open (n : nat) (s : string) :
  without is_open s = true → marker_chain n s = None.
Proof.
  intros Hs. destruct n as [|n]; [done|]. cbn [marker_chain].
  destruct s as [|c s]; [done|].
  apply andb_true_iff in Hs as [Hc%negb_true_iff _].
  by rewrite marker_at_not_open.
Qed.

Lemma find_marker_simple (l k r : string) :
  without is_open l = true →
  without is_close k = true → without is_line_terminator k = true →
  find_marker (l +:+ "{{" +:+ k +:+ "}}" +:+ r) = Some (l, k, r).
Proof.
  intros Hl Hk Hk'. induction l as [|c l IH].
  - rewrite app_nil_l.
    destruct ("{{" +:+ k +:+ "}}" +:+ r) eqn:E; [done|]. cbn [find_marker].
    by rewrite <- E, marker_at_simple.
  - apply andb_true_iff in Hl as [Hc%negb_true_iff Hl].
    rewrite app_cons. cbn [find_marker].
    rewrite marker_at_not_open by done. by rewrite IH.
Qed.

Lemma match_markers_single (l k r : string) :
  without is_open l = true →
  without is_close k = true → without is_line_terminator k = true →
  without is_open r = true →
  match_markers (l +:+ "{{" +:+ k +:+ "}}" +:+ r) = ["{{" +:+ k +:+ "}}"].
Proof.
  intros Hl Hk Hk' Hr. induction l as [|c l IH].
  - rewrite app_nil_l, match_markers_eq, marker_chain_eq.
    rewrite marker_at_simple by done.
    rewrite marker_chain_not_open by done.
    by rewrite match_markers_plain by by apply without_open_no_marker.
  - apply andb_true_iff in Hl as [Hc%negb_true_iff Hl].
    rewrite app_cons, match_markers_eq, marker_chain_eq.
    rewrite marker_at_not_open by done. by apply IH.
Qed.

Lemma strip_braces_app (s t : string) :
  strip_braces (s +:+ t) = strip_braces s +:+ strip_braces t.
Proof.
  induction s as [|c s IH]; [done|]. rewrite app_cons. cbn [strip_braces].
  destruct (_ || _); [done|]. by rewrite app_cons, IH.
Qed.

Lemma strip_braces_free (k : string) :
  without is_open k = true → without is_close k = true →
  strip_braces k = k.
Proof.
  induction k as [|c k IH]; [done|]. cbn [without strip_braces].
  intros [Ho%negb_true_iff Ho']%andb_true_iff
         [Hc%negb_true_iff Hc']%andb_true_iff.
  unfold is_open in Ho. unfold is_close in Hc. rewrite Ho, Hc. cbn [orb].
  by rewrite IH.
Qed.

Lemma strip_braces_marker (k : string) :
  without is_open k = true → without is_close k = true →
  strip_braces ("{{" +:+ k +:+ "}}") = k.
Proof.
  intros Ho Hc. rewrite !strip_braces_app, (strip_braces_free k) by done.
  exact (app_nil_r k).
Qed.

(** *** Keys *)

Lemma dash_lower_char (c : ascii) :
  let k := if Ascii.is_space c then "-"%char else lower c in
  Ascii.is_space k = false ∧ is_upper k = false ∧ lower k = k.
Proof. destruct c as [[] [] [] [] [] [] [] []]; done. Qed.

Lemma dash_lower_idempotent (s : string) :
  dash_lower (dash_lower s) = dash_lower s.
Proof.
  induction s as [|c s IH]; [done|]. cbn [dash_lower].
  destruct (dash_lower_char c) as (Hs & _ & Hl). cbn zeta in Hs, Hl.
  by rewrite Hs, Hl, IH.
Qed.

Lemma dash_lower_key_format (s : string) : key_format (dash_lower s) = true.
Proof.
  unfold key_format. apply andb_true_iff.
  induction s as [|c s [IH1 IH2]]; [done|]. cbn [dash_lower without].
  destruct (dash_lower_char c) as (Hs & Hu & _). cbn zeta in Hs, Hu.
  by rewrite Hs, Hu, IH1, IH2.
Qed.

Lemma dash_lower_length (s : string) :
  String.length (dash_lower s) = String.length s.
Proof. induction s as [|c s IH]; [done|]. cbn. by rewrite IH. Qed.

(** A string in key format is its own key. *)
Lemma dash_lower_fixed (s : string) : key_format s = true → dash_lower s = s.
Proof.
  unfold key_format. intros [Hs Hu]%andb_true_iff.
  induction s as [|c s IH]; [done|]. cbn [dash_lower without] in *.
  apply andb_true_iff in Hs as [Hc%negb_true_iff Hs].
  apply andb_true_iff in Hu as [Hc'%negb_true_iff Hu].
  rewrite Hc, IH by done. f_equal.
  unfold lower. unfold is_upper in Hc'. cbn zeta in Hc'. by rewrite Hc'.
Qed.

(** *** Numeric strings *)

Lemma rev_app_rev_app (s acc acc' : string) :
  String.rev_app (String.rev_app s acc) acc' =
  String.rev_app acc (s +:+ acc').
Proof.
  revert acc acc'. induction s as [|c s IH]; intros acc acc'; [done|].
  cbn [String.rev_app]. by rewrite IH.
Qed.

Lemma rev_involutive (s : string) : String.rev (String.rev s) = s.
Proof.
  unfold String.rev. rewrite rev_app_rev_app. cbn. apply app_nil_r.
Qed.

Lemma without_rev_app (p : ascii → bool) (s acc : string) :
  without p (String.rev_app s acc) = without p s && without p acc.
Proof.
  revert acc. induction s as [|c s IH]; intros acc; [done|].
  cbn [String.rev_app without]. rewrite IH. cbn [without].
  destruct (p c), (without p s), (without p acc); done.
Qed.

Lemma trim_start_without (s : string) :
  without Ascii.is_space s = true → trim_start s = s.
Proof.
  destruct s as [|c s]; [done|]. cbn.
  intros [Hc%negb_true_iff _]%andb_true_iff. by rewrite Hc.
Qed.

Lemma trim_without (s : string) :
  without Ascii.is_space s = true → trim s = s.
Proof.
  intros Hs. unfold trim, trim_end. rewrite (trim_start_without s) by done.
  rewrite trim_start_without.
  - apply rev_involutive.
  - unfold String.rev. by rewrite without_rev_app, Hs.
Qed.

Lemma digits_only_without_space (s : string) :
  digits_only s = true → without Ascii.is_space s = true.
Proof.
  induction s as [|c s IH]; [done|]. cbn.
  intros [Hc%bool_decide_eq_true Hs]%andb_true_iff.
  apply digit_plain in Hc as (-> & _). by rewrite IH.
Qed.

(** The decimal string of an integer reads as a number. *)
Lemma is_numeric_decimal (z : Z) :
  is_numeric_string (number_to_string (Int z)) = true.
Proof.
  assert (∀ p, unsigned_decimal (NilEmpty.string_of_uint (Pos.to_uint p)) = true)
    as Hpos.
  { intros p. unfold unsigned_decimal. rewrite span_digits_pos.
    destruct (string_of_uint_nonempty (Pos.to_uint p)
                (DecimalPos.Unsigned.to_uint_nonnil p)) as (c & s & ->).
    cbn. apply orb_true_r. }
  destruct z as [|p|p]; [done|..];
    unfold number_to_string, is_numeric_string;
    cbn [Z.to_int NilZero.string_of_int];
    rewrite NilZero_string_of_uint_pos;
    pose proof (digits_only_uint (Pos.to_uint p)) as Hd;
    pose proof (digits_only_without_space _ Hd) as Hs.
  - rewrite trim_without by done.
    destruct (string_of_uint_nonempty (Pos.to_uint p)
                (DecimalPos.Unsigned.to_uint_nonnil p)) as (c & s & E).
    rewrite E in *.
    assert (is_Some (Ascii.is_nat c)) as Hc
      by (cbn in Hd; apply andb_true_iff in Hd as [Hc _];
          by apply bool_decide_eq_true in Hc).
    destruct (digit_first c s Hc) as [_ ->]. cbn [snd].
    rewrite <- E, Hpos. apply orb_true_r.
  - rewrite trim_without by (cbn; by rewrite Hs).
    change (strip_sign (String "-" ?s)) with (-1, s). cbn [snd].
    rewrite Hpos. apply orb_true_r.
Qed.

(** [parseInt] reads an integer back from its decimal string. *)
Lemma parseInt_decimal (z : Z) :
  parseInt (VString (number_to_string (Int z))) = Int z.
Proof. apply (parseInt_Int z). Qed.

(** *** Replacement patterns *)

Lemma GetSubstitution_app (matched before after : string)
    (captures : list string) (p t : string) :
  dollar_free p = true →
  GetSubstitution matched before after captures (p +:+ t) =
  p +:+ GetSubstitution matched before after captures t.
Proof.
  induction p as [|c p IH]; [done|]. cbn [dollar_free].
  intros [Hc%negb_true_iff Hp]%andb_true_iff.
  rewrite !app_cons. cbn [GetSubstitution]. rewrite Hc. by rewrite IH.
Qed.

Lemma GetSubstitution_matched (matched before after : string)
    (captures : list string) (p q : string) :
  dollar_free p = true → dollar_free q = true →
  GetSubstitution matched before after captures (p +:+ "$&" +:+ q) =
  p +:+ matched +:+ q.
Proof.
  intros Hp Hq. rewrite GetSubstitution_app by done. f_equal.
  change ("$&" +:+ q) with (String "$" (String "&" q)).
  cbn [GetSubstitution]. cbn.
  by rewrite GetSubstitution_dollar_free.
Qed.

(** *** Two markers side by side *)

Lemma match_markers_adjacent (l k1 k2 r : string) :
  without is_open l = true →
  without is_close k1 = true → without is_line_terminator k1 = true →
  without is_close k2 = true → without is_line_terminator k2 = true →
  without is_open r = true →
  match_markers (l +:+ "{{" +:+ k1 +:+ "}}" +:+ "{{" +:+ k2 +:+ "}}" +:+ r)
    = ["{{" +:+ k1 +:+ "}}" +:+ "{{" +:+ k2 +:+ "}}"].
Proof.
  intros Hl H1 H1' H2 H2' Hr. induction l as [|c l IH].
  - rewrite app_nil_l, match_markers_eq, marker_chain_eq.
    rewrite marker_at_simple by done.
    rewrite marker_chain_eq, marker_at_simple by done.
    rewrite marker_chain_not_open by done.
    rewrite match_markers_plain by by apply without_open_no_marker.
    done.
  - apply andb_true_iff in Hl as [Hc%negb_true_iff Hl].
    rewrite app_cons, match_markers_eq, marker_chain_eq.
    rewrite marker_at_not_open by done. by apply IH.
Qed.

(** *** Two markers apart *)

Lemma digits_only_without_open (s : string) :
  digits_only s = true → without is_open s = true.
Proof.
  induction s as [|c s IH]; [done|]. cbn.
  intros [Hc Hs]%andb_true_iff. rewrite IH by done.
  apply bool_decide_eq_true in Hc. rewrite andb_true_r.
  apply negb_true_iff, bool_decide_eq_false. intros ->.
  by destruct Hc as [? [=]].
Qed.

Lemma number_to_string_without_open (z : Z) :
  without is_open (number_to_string (Int z)) = true.
Proof.
  unfold number_to_string.
  destruct z as [|p|p]; cbn [Z.to_int NilZero.string_of_int]; try done.
  - unfold NilZero.string_of_uint.
    destruct (Pos.to_uint p) eqn:E; try done;
      rewrite <- E; apply digits_only_without_open, digits_only_uint.
  - unfold NilZero.string_of_uint. cbn [without].
    destruct (Pos.to_uint p) eqn:E; try done;
      rewrite <- E; apply digits_only_without_open, digits_only_uint.
Qed.

Lemma match_markers_apart (l k1 m k2 r : string) :
  without is_open l = true →
  without is_close k1 = true → without is_line_terminator k1 = true →
  m ≠ "" → without is_open m = true →
  without is_close k2 = true → without is_line_terminator k2 = true →
  without is_open r = true →
  match_markers (l +:+ "{{" +:+ k1 +:+ "}}" +:+ m +:+ "{{" +:+ k2 +:+ "}}" +:+ r)
    = ["{{" +:+ k1 +:+ "}}"; "{{" +:+ k2 +:+ "}}"].
Proof.
  intros Hl H1 H1' Hne Hm H2 H2' Hr. induction l as [|c l IH].
  - rewrite app_nil_l, match_markers_eq, marker_chain_eq.
    rewrite marker_at_simple by done.
    destruct m as [|c m]; [done|].
    rewrite app_cons.
    assert (is_open c = false) as Hc.
    { cbn in Hm. by apply andb_true_iff in Hm as [Hc%negb_true_iff _]. }
    assert (∀ n, marker_chain n
                   (String c (m +:+ "{{" +:+ k2 +:+ "}}" +:+ r)) = None) as ->.
    { intros [|n]; [done|]. cbn [marker_chain].
      by rewrite marker_at_not_open. }
    f_equal. rewrite <- app_cons. by apply match_markers_single.
  - apply andb_true_iff in Hl as [Hc%negb_true_iff Hl].
    rewrite app_cons, match_markers_eq, marker_chain_eq.
    rewrite marker_at_not_open by done. by apply IH.
Qed.

(** *** Sets of values *)

Lemma same_value_zero_eq (a b : value) : same_value_zero a b = true → a = b.
Proof.
  unfold same_value_zero.
  destruct a as [| |x|[x|]|x|x|x], b as [| |y|[y|]|y|y|y]; cbn;
    rewrite ?orb_false_r; try done.
  - by intros ->%bool_decide_eq_true.
  - by intros ->%Z.eqb_eq.
  - by intros ->%bool_decide_eq_true.
  - by intros ->%bool_decide_eq_true.
Qed.

Lemma Set_add_elem (opts : list value) (v w : value) :
  w ∈ Set_add opts v ↔ w ∈ opts ∨ w = v.
Proof.
  unfold Set_add. destruct (existsb _ opts) eqn:E.
  - split; [auto|]. intros [H| ->]; [done|].
    apply existsb_exists in E as (x & Hx & Hv).
    apply same_value_zero_eq in Hv as ->. by apply list_elem_of_In.
  - by rewrite elem_of_app, list_elem_of_singleton.
Qed.

Lemma Set_add_distinct (opts : list value) (v : value) :
  distinct opts → distinct (Set_add opts v).
Proof.
  intros Hd. unfold Set_add. destruct (existsb _ opts) eqn:E; [done|].
  assert (∀ x, x ∈ opts → same_value_zero v x = false) as Hnew.
  { intros x Hx%list_elem_of_In.
    destruct (same_value_zero v x) eqn:Hv; [|done].
    assert (existsb (same_value_zero v) opts = true) as E'
      by (apply existsb_exists; eauto).
    by rewrite E in E'. }
  intros i j x y Hi Hj Hxy.
  apply lookup_app_Some in Hi as [Hi|[Hi Hi']];
    apply lookup_app_Some in Hj as [Hj|[Hj Hj']].
  - by apply (Hd i j x y).
  - apply list_lookup_singleton_Some in Hj' as [_ <-].
    pose proof (same_value_zero_eq _ _ Hxy) as ->.
    rewrite Hnew in Hxy; [done|]. by apply list_elem_of_lookup_2 in Hi.
  - apply list_lookup_singleton_Some in Hi' as [_ <-].
    rewrite Hnew in Hxy; [done|]. by apply list_elem_of_lookup_2 in Hj.
  - apply list_lookup_singleton_Some in Hi' as [Hi' _].
    apply list_lookup_singleton_Some in Hj' as [Hj' _]. lia.
Qed.

(** *** Multiplication of doubles *)

Lemma round_half_even_le (m : Q) :
  (inject_Z (round_half_even m) <= m + (1 # 2))%Q.
Proof.
  unfold round_half_even.
  pose proof (Qfloor_le m) as Hlo.
  destruct (Qcompare_spec (m - inject_Z (Qfloor m)) (1 # 2)) as [H|H|H].
  - destruct (Z.even (Qfloor m)); [lra|].
    rewrite inject_Z_plus. change (inject_Z 1) with 1%Q. lra.
  - lra.
  - rewrite inject_Z_plus. change (inject_Z 1) with 1%Q. lra.
Qed.

Lemma round_half_even_nonneg (m : Q) :
  (0 <= m)%Q → 0 ≤ round_half_even m.
Proof.
  intros Hm. unfold round_half_even.
  assert (0 ≤ Qfloor m) as Hf.
  { rewrite <- (Qfloor_Z 0). by apply Qfloor_resp_le. }
  destruct (_ ?= _)%Q; [destruct (Z.even _)|..]; lia.
Qed.

Lemma pow2_pos (e : Z) : (0 < 2 ^ e)%Q.
Proof. by apply Qpower_0_lt. Qed.

Lemma pow2_plus (a b : Z) : (2 ^ (a + b) == 2 ^ a * 2 ^ b)%Q.
Proof. by apply Qpower_plus. Qed.

Lemma pow2_le (a b : Z) : a ≤ b → (2 ^ a <= 2 ^ b)%Q.
Proof. intros H. by apply Qpower_le_compat_l. Qed.

Lemma pow2_lt_inv (a b : Z) : (2 ^ a < 2 ^ b)%Q → a < b.
Proof. intros H. by apply (Qpower_lt_compat_l_inv 2). Qed.

Lemma pow2_inject (a : Z) : 0 ≤ a → (inject_Z (2 ^ a) == 2 ^ a)%Q.
Proof. intros H. by apply Zpower_Qpower. Qed.

Lemma inject_Z_pos (n : Z) : 0 < n → (0 < inject_Z n)%Q.
Proof. intros H. change 0%Q with (inject_Z 0). by rewrite <- Zlt_Qlt. Qed.

(** [Qlog2] is the exponent of the binade of [x]. *)
Lemma Qlog2_spec (x : Q) :
  (0 < x)%Q → (2 ^ Qlog2 x <= x)%Q ∧ (x < 2 ^ (Qlog2 x + 1))%Q.
Proof.
  intros Hx. unfold Qlog2.
  destruct x as [p q]. cbn [Qnum Qden].
  assert (0 < p) as Hp by (unfold Qlt in Hx; cbn in Hx; lia).
  set (lp := Z.log2 p). set (lq := Z.log2 (Z.pos q)).
  destruct (Z.log2_spec p Hp) as [Hp1 Hp2]. fold lp in Hp1, Hp2.
  destruct (Z.log2_spec (Z.pos q) eq_refl) as [Hq1 Hq2]. fold lq in Hq1, Hq2.
  assert (0 ≤ lp) as Hlp by apply Z.log2_nonneg.
  assert (0 ≤ lq) as Hlq by apply Z.log2_nonneg.
  assert ((p # q) == inject_Z p / inject_Z (Z.pos q))%Q as Hpq
    by apply Qmake_Qdiv.
  assert (0 < inject_Z (Z.pos q))%Q as Hq0 by reflexivity.
  assert (inject_Z p < 2 ^ (lp + 1))%Q as Hp2'.
  { rewrite <- pow2_inject by lia. rewrite <- Zlt_Qlt.
    by rewrite <- Z.add_1_r in Hp2. }
  assert (2 ^ lp <= inject_Z p)%Q as Hp1'.
  { rewrite <- pow2_inject by lia. by rewrite <- Zle_Qle. }
  assert (inject_Z (Z.pos q) < 2 ^ (lq + 1))%Q as Hq2'.
  { rewrite <- pow2_inject by lia. rewrite <- Zlt_Qlt.
    by rewrite <- Z.add_1_r in Hq2. }
  assert (2 ^ lq <= inject_Z (Z.pos q))%Q as Hq1'.
  { rewrite <- pow2_inject by lia. by rewrite <- Zle_Qle. }
  assert ((p # q) < 2 ^ (lp - lq + 1))%Q as Hup.
  { rewrite Hpq. apply Qlt_shift_div_r; [done|].
    pose proof (pow2_plus (lp - lq + 1) lq) as Hs.
    replace (lp - lq + 1 + lq) with (lp + 1) in Hs by lia.
    pose proof (pow2_pos (lp - lq + 1)). nra. }
  assert (2 ^ (lp - lq - 1) <= (p # q))%Q as Hlow.
  { rewrite Hpq. apply Qle_shift_div_l; [done|].
    pose proof (pow2_plus (lp - lq - 1) (lq + 1)) as Hs.
    replace (lp - lq - 1 + (lq + 1)) with lp in Hs by lia.
    pose proof (pow2_pos (lp - lq - 1)). nra. }
  destruct (Qle_bool _ _) eqn:E.
  - by apply Qle_bool_iff in E.
  - split; [done|].
    replace (lp - lq - 1 + 1) with (lp - lq) by lia.
    apply Qnot_le_lt. intros H. apply Qle_bool_iff in H. congruence.
Qed.

Lemma nearest_double_nonneg (x : Q) : (0 <= x)%Q → (0 <= nearest_double x)%Q.
Proof.
  intros Hx. unfold nearest_double.
  set (e := Z.max _ _). pose proof (pow2_pos e) as He.
  apply Qmult_le_0_compat; [|lra].
  change 0%Q with (inject_Z 0). rewrite <- Zle_Qle.
  apply round_half_even_nonneg. apply Qle_shift_div_l; [done|]. lra.
Qed.

Lemma round_double_nonneg (x : Q) : (0 <= x)%Q → (0 <= round_double x)%Q.
Proof.
  intros Hx. unfold round_double. destruct (Qnum x) eqn:E.
  - done.
  - by apply nearest_double_nonneg.
  - destruct x as [a q]. cbn in E. subst a. by unfold Qle in Hx.
Qed.

(** Rounding moves a number up by at most half a unit in the last
    place. *)
Lemma nearest_double_le (x : Q) :
  (nearest_double x <=
   x + (1 # 2) * 2 ^ Z.max (Qlog2 x - 52) (-1074))%Q.
Proof.
  unfold nearest_double. set (e := Z.max _ _).
  pose proof (pow2_pos e) as He.
  pose proof (round_half_even_le (x / 2 ^ e)) as Hr.
  apply (Qmult_le_r _ _ (2 ^ e)) in Hr; [|done].
  eapply Qle_trans; [exact Hr|]. apply Qle_lteq. right. field. lra.
Qed.

(** A number that is at most [n * (1 - 2^-53)], for a positive integer
    [n], rounds to a number below [n]. *)
Lemma round_double_below (x : Q) (n : Z) :
  (0 <= x)%Q → 0 < n →
  (x <= inject_Z n * (1 - 2 ^ (-53)))%Q →
  (round_double x < inject_Z n)%Q.
Proof.
  intros Hx Hn Hle.
  pose proof (inject_Z_pos n Hn) as Hn'.
  unfold round_double. destruct (Qnum x) eqn:E; [done| |].
  2: { destruct x as [a q]. cbn in E. subst a. by unfold Qle in Hx. }
  assert (0 < x)%Q as Hx0.
  { destruct x as [a q]. cbn in E. subst a. reflexivity. }
  eapply Qle_lt_trans; [apply nearest_double_le|].
  destruct (Qlog2_spec x Hx0) as [HL1 HL2]. set (L := Qlog2 x) in *.
  set (k := Z.log2 n).
  destruct (Z.log2_spec n Hn) as [Hk1 Hk2]. fold k in Hk1, Hk2.
  assert (0 ≤ k) as Hk by apply Z.log2_nonneg.
  assert (2 ^ k <= inject_Z n)%Q as Hk1'.
  { rewrite <- pow2_inject by lia. by rewrite <- Zle_Qle. }
  assert (inject_Z n < 2 ^ (k + 1))%Q as Hk2'.
  { rewrite <- pow2_inject by lia. rewrite <- Zlt_Qlt.
    by rewrite <- Z.add_1_r in Hk2. }
  set (c := (2 ^ (-53))%Q) in *.
  assert (0 < c)%Q as Hc by apply pow2_pos.
  assert (c < 1)%Q as Hc1 by reflexivity.
  pose proof (pow2_pos k) as Hpk.
  destruct (Qlt_le_dec x (2 ^ k)) as [Hxk|Hxk].
  - assert (L < k) as HLk.
    { apply pow2_lt_inv. by eapply Qle_lt_trans. }
    pose proof (pow2_le (Z.max (L - 52) (-1074)) (k - 53) ltac:(lia)) as He.
    pose proof (pow2_pos (Z.max (L - 52) (-1074))) as He0.
    pose proof (pow2_plus k (-53)) as Hs. fold c in Hs.
    replace (k + -53) with (k - 53) in Hs by lia.
    nra.
  - assert (L < k + 1) as HLk.
    { apply pow2_lt_inv. eapply Qle_lt_trans; [exact HL1|].
      eapply Qle_lt_trans; [exact Hle|]. nra. }
    pose proof (pow2_le (Z.max (L - 52) (-1074)) (k - 52) ltac:(lia)) as He.
    pose proof (pow2_pos (Z.max (L - 52) (-1074))) as He0.
    pose proof (pow2_plus k (-53)) as Hs. fold c in Hs.
    pose proof (pow2_plus (k - 53) 1) as Hs'.
    replace (k + -53) with (k - 53) in Hs by lia.
    replace (k - 53 + 1) with (k - 52) in Hs' by lia.
    change (2 ^ 1)%Q with 2%Q in Hs'.
    nra.
Qed.

(** The largest double below one is [1 - 2^-53]. *)
Lemma double_below_one (u : Q) :
  is_double u → (u < 1)%Q → (u <= 1 - 2 ^ (-53))%Q.
Proof.
  intros (m & e & Hm & He & Hu) H1. rewrite Hu in H1 |- *.
  pose proof (pow2_pos e) as Hpe.
  destruct (Z.le_gt_cases m 0) as [Hm0|Hm0].
  - assert (inject_Z m <= 0)%Q
      by (change 0%Q with (inject_Z 0); by rewrite <- Zle_Qle).
    assert (0 <= 1 - 2 ^ (-53))%Q by done. nra.
  - pose proof (inject_Z_pos m Hm0) as Hm0'.
    assert (inject_Z m < inject_Z (2 ^ 53))%Q as Hm'
      by (rewrite <- Zlt_Qlt; lia).
    destruct (Z.le_gt_cases (-53) e) as [He53|He53].
    + pose proof (pow2_plus e 53) as Hs.
      rewrite <- (pow2_inject (e + 53)) in Hs by lia.
      assert (inject_Z (m * 2 ^ (e + 53)) < inject_Z (2 ^ 53))%Q as Hlt.
      { rewrite inject_Z_mult, Hs.
        change (inject_Z (2 ^ 53)) with (2 ^ 53)%Q.
        assert (0 < 2 ^ 53)%Q by done. nra. }
      rewrite <- Zlt_Qlt in Hlt.
      assert (m * 2 ^ (e + 53) ≤ 2 ^ 53 - 1) as Hle by lia.
      rewrite Zle_Qle, inject_Z_mult, Hs in Hle.
      assert ((2 ^ 53) * (1 - 2 ^ (-53)) == inject_Z (2 ^ 53 - 1))%Q as Hc
        by reflexivity.
      assert (0 < 2 ^ 53)%Q by done. nra.
    + pose proof (pow2_le e (-54) ltac:(lia)) as Hs.
      assert (inject_Z (2 ^ 53) * 2 ^ (-54) <= 1 - 2 ^ (-53))%Q as Hc by done.
      nra.
Qed.

Lemma round_half_even_floor (m : Q) :
  Qfloor m ≤ round_half_even m ≤ Qfloor m + 1.
Proof.
  unfold round_half_even. cbv zeta.
  destruct (Qcompare _ _); [destruct (Z.even _)|..]; lia.
Qed.

(** Below [2^53] rounding does not cross an integer: the floor of the
    rounded number is the floor of the number, or one more. *)
Lemma round_double_floor (y : Q) :
  (0 <= y)%Q → (y < 2 ^ 53)%Q →
  Qfloor y ≤ Qfloor (round_double y) ≤ Qfloor y + 1.
Proof.
  intros Hy Hlt. unfold round_double. destruct (Qnum y) eqn:E.
  - destruct y as [a q]. cbn in E. subst a.
    unfold Qfloor. rewrite !Zdiv_0_l. lia.
  - assert (0 < y)%Q as Hy0.
    { destruct y as [a q]. cbn in E. subst a. reflexivity. }
    destruct (Qlog2_spec y Hy0) as [HL1 HL2]. unfold nearest_double.
    set (L := Qlog2 y) in *. set (e := Z.max (L - 52) (-1074)).
    assert (L < 53) as HL.
    { apply pow2_lt_inv. by eapply Qle_lt_trans. }
    assert (e ≤ 0) as He by lia.
    pose proof (pow2_pos e) as Hpe.
    pose proof (pow2_pos (- e)) as Hps.
    pose proof (pow2_plus e (- e)) as Hinv.
    replace (e + - e) with 0 in Hinv by lia. change (2 ^ 0)%Q with 1%Q in Hinv.
    pose proof (pow2_inject (- e) ltac:(lia)) as Hinj.
    pose proof (Qfloor_le y) as Hf1. pose proof (Qlt_floor y) as Hf2.
    set (K := Qfloor y) in *. set (m := (y / 2 ^ e)%Q).
    assert (m == y * 2 ^ (- e))%Q as Hm.
    { unfold m. field_simplify_eq; [nra|lra]. }
    pose proof (round_half_even_floor m) as [Hr1 Hr2].
    pose proof (Qfloor_le m) as Hm1. pose proof (Qlt_floor m) as Hm2.
    assert (K * 2 ^ (- e) ≤ Qfloor m) as Hlo.
    { rewrite <- (Qfloor_Z (K * 2 ^ (- e))). apply Qfloor_resp_le.
      rewrite inject_Z_mult, Hinj, Hm. nra. }
    assert (Qfloor m + 1 ≤ (K + 1) * 2 ^ (- e)) as Hhi.
    { assert (Qfloor m < (K + 1) * 2 ^ (- e)); [|lia].
      rewrite Zlt_Qlt, inject_Z_mult, Hinj.
      eapply Qle_lt_trans; [exact Hm1|]. rewrite Hm. nra. }
    split.
    + rewrite <- (Qfloor_Z K). apply Qfloor_resp_le.
      assert (inject_Z (K * 2 ^ (- e)) <= inject_Z (round_half_even m))%Q as H
        by (rewrite <- Zle_Qle; lia).
      rewrite inject_Z_mult, Hinj in H. nra.
    + rewrite <- (Qfloor_Z (K + 1)). apply Qfloor_resp_le.
      assert (inject_Z (round_half_even m) <= inject_Z ((K + 1) * 2 ^ (- e)))%Q
        as H by (rewrite <- Zle_Qle; lia).
      rewrite inject_Z_mult, Hinj in H. nra.
  - destruct y as [a q]. cbn in E. subst a. by unfold Qle in Hy.
Qed.

(** The index is the floor of the exact product, or one more. *)
Lemma random_index_near (u : Q) (n : Z) :
  (0 <= u)%Q → (u < 1)%Q → 0 < n ≤ 2 ^ 53 →
  Qfloor (u * inject_Z n) ≤ Qfloor (Number_multiply u (inject_Z n))
    ≤ Qfloor (u * inject_Z n) + 1.
Proof.
  intros H0 H1 [Hn Hn53]. unfold Number_multiply.
  pose proof (inject_Z_pos n Hn) as Hn'.
  assert (inject_Z n <= 2 ^ 53)%Q as Hn53'.
  { rewrite <- pow2_inject by lia. by rewrite <- Zle_Qle. }
  apply round_double_floor; [apply Qmult_le_0_compat; lra|nra].
Qed.

(** The index [Math.floor(u * n)] of a draw [u], a double in [[0,1)]:
    in range. *)
Lemma random_index (u : Q) (n : Z) :
  is_double u → (0 <= u)%Q → (u < 1)%Q → 0 < n →
  0 ≤ Qfloor (Number_multiply u (inject_Z n)) < n.
Proof.
  intros Hd H0 H1 Hn. unfold Number_multiply.
  pose proof (inject_Z_pos n Hn) as Hn'.
  assert (0 <= u * inject_Z n)%Q as Hx by (apply Qmult_le_0_compat; lra).
  split.
  - rewrite <- (Qfloor_Z 0). apply Qfloor_resp_le.
    by apply round_double_nonneg.
  - rewrite Zlt_Qlt. eapply Qle_lt_trans; [apply Qfloor_le|].
    apply round_double_below; [done..|].
    pose proof (double_below_one u Hd H1). nra.
Qed.

End JSFacts.

(** ** Properties of the resolver *)

Section Properties.

Context {W : Type}.
Variable Math_random : W → Q * W.
Variable Dice_roll : string → W → option DiceRollResult * W.
Variable TABLES : gmap string Table.

Import JSFacts.

Lemma strict_eq_false_iff (v : value) :
  strict_eq v (VBool false) = true ↔ v = VBool false.
Proof.
  destruct v as [| |[]|[]|?|?|?]; cbn; split; try done.
Qed.

(** What [roll] does to the expression, case by case. *)
Lemma roll_expression_false (a : Attribute) (dice : string) :
  rollModifier a = VBool false → roll_expression a dice = dice.
Proof. intros H. unfold roll_expression. by rewrite H. Qed.

Lemma roll_expression_first (a : Attribute) (dice l r : string) :
  rollModifier a ≠ VBool false →
  Str.first_at "MOD" l r dice →
  roll_expression a dice =
    l +:+ GetSubstitution "MOD" l r [] (ToString (rollModifier a)) +:+ r.
Proof.
  intros Hm Hfirst. unfold roll_expression.
  destruct (strict_eq (rollModifier a) (VBool false)) eqn:E.
  { by apply strict_eq_false_iff in E. }
  cbn [negb]. unfold String_replace.
  rewrite (StrFacts.first_at_index_of _ _ _ _ Hfirst).
  destruct Hfirst as [-> _].
  replace (String.length l + String.length "MOD")%nat
    with (String.length (l +:+ "MOD")) by apply StrFacts.app_length.
  rewrite <- (StrFacts.app_assoc l "MOD" r), StrFacts.drop_app.
  by rewrite (StrFacts.app_assoc l "MOD" r), StrFacts.take_app.
Qed.

Lemma roll_expression_none (a : Attribute) (dice : string) :
  ¬ Str.occurs "MOD" dice → roll_expression a dice = dice.
Proof.
  intros Hno. unfold roll_expression, String_replace.
  destruct (Str.index_of "MOD" dice) as [n|] eqn:E.
  - apply StrFacts.index_of_Some in E as [[Heq _] _]. destruct Hno.
    eexists _, _. exact Heq.
  - by destruct (negb _).
Qed.

(** C10: [roll] leaves the expression alone only when [rollModifier] is
    the boolean [false]; for every other value, a [rollModifier] that
    was never set included, the leftmost [MOD] is replaced by the string
    form of the value -- ["undefined"] when it was never set, as for an
    attribute whose configuration has no [rollModifier] -- and the text
    after it reaches the dice library as it is. *)
Theorem C10_roll_sentinel_is_false (a : Attribute) (dice l r : string) :
  Str.first_at "MOD" l r dice →
  (rollModifier a = VBool false →
     roll_ Dice_roll a dice = dice_roll Dice_roll dice) ∧
  (rollModifier a ≠ VBool false →
     roll_ Dice_roll a dice =
       dice_roll Dice_roll
         (l +:+ GetSubstitution "MOD" l r [] (ToString (rollModifier a))
            +:+ r)) ∧
  (rollModifier a = VUndefined →
     roll_ Dice_roll a dice =
       dice_roll Dice_roll (l +:+ "undefined" +:+ r)) ∧
  (∀ config,
     match config with
     | inl _ => True
     | inr c => cfg_rollModifier c = None
     end →
     roll_ Dice_roll (setConfig TABLES config new_object) dice =
       dice_roll Dice_roll (l +:+ "undefined" +:+ r)).
Proof.
  intros Hfirst.
  assert (∀ a, rollModifier a = VUndefined →
     roll_ Dice_roll a dice = dice_roll Dice_roll (l +:+ "undefined" +:+ r))
    as Hundef.
  { intros a' H. unfold roll_.
    rewrite (roll_expression_first a' dice l r); [|by rewrite H|done].
    by rewrite H. }
  unfold roll_. repeat split.
  - intros H. by rewrite roll_expression_false.
  - intros H. by rewrite (roll_expression_first a dice l r).
  - apply Hundef.
  - intros config Hc. apply Hundef.
    destruct config as [n|[[n|] [f|] [m|]]]; done.
Qed.

(** C5, as the code has it: with an integer [rollModifier], the leftmost
    [MOD] of the expression is replaced by the decimal string of the
    integer, sign included, and nothing else changes; the dice library
    receives that text. *)
Theorem C5_modifier_substitution (a : Attribute) (z : Z) (dice l r : string) :
  rollModifier a = VNumber (Int z) →
  positional z →
  Str.first_at "MOD" l r dice →
  roll_ Dice_roll a dice =
    dice_roll Dice_roll (l +:+ number_to_string (Int z) +:+ r).
Proof.
  intros Hm _ Hfirst. unfold roll_.
  rewrite (roll_expression_first a dice l r); [|by rewrite Hm|done].
  rewrite Hm. cbn [ToString].
  by rewrite GetSubstitution_dollar_free
    by apply number_to_string_dollar_free.
Qed.

(** *** Running the effects *)

Lemma bind_run {A B} (m : M W A) (k : A → M W B) (st : state W) :
  (m ≫= k) st =
    match m st with
    | (Normal a, st') => k a st'
    | (Throw e, st') => (Throw e, st')
    | (OutOfFuel, st') => (OutOfFuel, st')
    end.
Proof. done. Qed.

Lemma read_Some (l : nat) (o : Row) (st : state W) :
  heap st !! l = Some o → read l st = (Normal o, st).
Proof. intros H. unfold read. by rewrite H. Qed.

Lemma forEach_scan (p : Row → bool) (ls : list nat) (init : value)
    (st : state W) :
  rows_exist (heap st) ls →
  forEach ls
    (λ result l, o ← read l; ret (if p o then VObject l else result))
    init st
  = (Normal (last_where p (heap st) ls init), st).
Proof.
  revert init. induction ls as [|l ls IH]; intros init Hex; [done|].
  apply Forall_cons in Hex as [[o Ho] Hex].
  cbn [forEach]. rewrite bind_run, bind_run, (read_Some l o) by done.
  unfold ret at 1. rewrite IH by done.
  unfold last_where. cbn [foldl]. by rewrite Ho.
Qed.

Lemma last_where_none (p : Row → bool) (h : list Row) (ls : list nat)
    (init : value) :
  (∀ l o, l ∈ ls → h !! l = Some o → p o = false) →
  last_where p h ls init = init.
Proof.
  revert init. induction ls as [|l ls IH]; intros init Hno; [done|].
  unfold last_where. cbn [foldl].
  destruct (h !! l) as [o|] eqn:Ho.
  - rewrite (Hno l o) by (done || apply list_elem_of_here).
    apply IH. intros l' o' Hin. apply Hno. by apply list_elem_of_further.
  - apply IH. intros l' o' Hin. apply Hno. by apply list_elem_of_further.
Qed.

Lemma last_where_app (p : Row → bool) (h : list Row) (ls ls' : list nat)
    (init : value) :
  last_where p h (ls ++ ls') init =
  last_where p h ls' (last_where p h ls init).
Proof. unfold last_where. by rewrite foldl_app. Qed.

Lemma last_where_only (p : Row → bool) (h : list Row) (ls : list nat)
    (init : value) (i l : nat) (o : Row) :
  ls !! i = Some l → h !! l = Some o → p o = true →
  (∀ j l' o', j ≠ i → ls !! j = Some l' → h !! l' = Some o' → p o' = false) →
  last_where p h ls init = VObject l.
Proof.
  intros Hi Ho Hp Hothers.
  rewrite <- (take_drop_middle ls i l Hi), last_where_app.
  change (l :: drop (S i) ls) with ([l] ++ drop (S i) ls).
  rewrite last_where_app.
  rewrite (last_where_none p h (drop (S i) ls)).
  - unfold last_where at 1. cbn [foldl]. by rewrite Ho, Hp.
  - intros l' o' [k Hk]%list_elem_of_lookup Ho'.
    rewrite lookup_drop in Hk. apply (Hothers (S i + k)%nat l' o'); [lia|done..].
Qed.

(** The last row that satisfies [p] wins over the earlier ones. *)
Lemma last_where_last (p : Row → bool) (h : list Row) (ls : list nat)
    (init : value) (l : nat) (o : Row) :
  h !! l = Some o → p o = true →
  last_where p h (ls ++ [l]) init = VObject l.
Proof.
  intros Ho Hp. rewrite last_where_app. unfold last_where at 1.
  cbn [foldl]. by rewrite Ho, Hp.
Qed.

(** *** The methods, run *)

Local Abbreviation new := (new_CharacterAttribute Math_random Dice_roll TABLES).
Local Abbreviation configured config := (setConfig TABLES config new_object).

Lemma configured_fresh (config : string + Config) :
  data (configured config) = VUndefined ∧
  rollResult (configured config) = VUndefined.
Proof.
  destruct config as [n|[[n|] [f|] [m|]]]; done.
Qed.

(** [this.data = v] for a [v] that is no object: the data are [{}]. *)
Lemma set_data_primitive (sub : string + Config → M W Attribute)
    (a : Attribute) (v : value) (st : state W) :
  (∀ l, v ≠ VObject l) →
  set_data Dice_roll TABLES sub a v st =
    (Normal (set__data (VObject (length (heap st))) a),
     {| heap := heap st ++ [empty_row]; world := world st |}).
Proof. intros Hv. destruct v; try done. by destruct (Hv l). Qed.

(** [this.data = row] for a row without a template: a copy of it. *)
Lemma set_data_plain (sub : string + Config → M W Attribute)
    (a : Attribute) (l : nat) (o : Row) (st : state W) :
  heap st !! l = Some o →
  translate o = None ∨ translate o = Some "" →
  set_data Dice_roll TABLES sub a (VObject l) st =
    (Normal (set__data (VObject (length (heap st))) a),
     {| heap := heap st ++ [o]; world := world st |}).
Proof.
  intros Ho Ht. unfold set_data.
  rewrite bind_run, (read_Some l o) by done.
  rewrite bind_run. unfold alloc at 1.
  by destruct Ht as [-> | ->].
Qed.

Lemma find_run (a : Attribute) (t : Table) (lookup : value) (st : state W) :
  table a = Some t →
  rows_exist (heap st) (outcomes t) →
  find a lookup st =
    (Normal (last_where (λ o, strict_eq (lookup_key lookup) (outcome o))
               (heap st) (outcomes t) (VBool false)), st).
Proof.
  intros Ht Hex. unfold find, the_table. rewrite Ht, bind_run.
  unfold ret at 1.
  exact (forEach_scan (λ o, strict_eq (lookup_key lookup) (outcome o))
           (outcomes t) (VBool false) st Hex).
Qed.

Lemma rollForRow_run (a : Attribute) (t : Table) (r : DiceRollResult)
    (w' : W) (st : state W) :
  table a = Some t →
  rows_exist (heap st) (outcomes t) →
  Dice_roll (roll_expression a (roll t)) (world st) = (Some r, w') →
  rollForRow Dice_roll a st =
    (Normal (last_where (in_range (total r)) (heap st) (outcomes t) (VBool false),
             set_rollResult (VDice r) a),
     {| heap := heap st; world := w' |}).
Proof.
  intros Ht Hex Hroll. unfold rollForRow, the_table. rewrite Ht, bind_run.
  unfold ret at 1. rewrite bind_run.
  unfold roll_, dice_roll at 1. rewrite Hroll.
  rewrite bind_run.
  rewrite (forEach_scan (in_range (total r)) (outcomes t) (VBool false)
             {| heap := heap st; world := w' |} Hex).
  done.
Qed.

(** On a table of which exactly one row contains the total, [rollForRow]
    returns that row. *)
Lemma rollForRow_unique (a : Attribute) (t : Table) (r : DiceRollResult)
    (w' : W) (st : state W) (i l : nat) (o : Row) :
  table a = Some t →
  rows_exist (heap st) (outcomes t) →
  Dice_roll (roll_expression a (roll t)) (world st) = (Some r, w') →
  outcomes t !! i = Some l → heap st !! l = Some o →
  in_range (total r) o = true →
  (∀ j l' o', j ≠ i → outcomes t !! j = Some l' → heap st !! l' = Some o' →
              in_range (total r) o' = false) →
  rollForRow Dice_roll a st =
    (Normal (VObject l, set_rollResult (VDice r) a),
     {| heap := heap st; world := w' |}).
Proof.
  intros Ht Hex Hroll Hi Ho Hin Hothers.
  rewrite (rollForRow_run a t r w') by done.
  by rewrite (last_where_only _ _ _ _ i l o).
Qed.

Lemma randomRow_run (a : Attribute) (t : Table) (u : Q) (w' : W)
    (st : state W) :
  table a = Some t →
  Math_random (world st) = (u, w') →
  randomRow Math_random a st =
    let i :=
      Qfloor (Number_multiply u (inject_Z (Z.of_nat (length (outcomes t))))) in
    (Normal (at_index (outcomes t) i, set_rollResult (VNumber (Int i)) a),
     {| heap := heap st; world := w' |}).
Proof.
  intros Ht Hu. unfold randomRow, the_table. rewrite bind_run.
  unfold random at 1. rewrite Hu, Ht. done.
Qed.

(** [generate] when nothing is looked up by value. *)
Lemma generate_select (sub : string + Config → M W Attribute)
    (a : Attribute) (t : Table) (st : state W) :
  strict_eq (fetch a) (VString "random") = true →
  data a = VUndefined →
  table a = Some t →
  generate Math_random Dice_roll TABLES sub a st =
    if bool_decide (roll t = "random")
    then ('(r, a) ← randomRow Math_random a;
          set_data Dice_roll TABLES sub a r) st
    else ('(r, a) ← rollForRow Dice_roll a;
          set_data Dice_roll TABLES sub a r) st.
Proof.
  intros Hf Hd Ht. unfold generate. rewrite Hf. cbn [negb].
  rewrite bind_run. unfold ret at 1. rewrite Hd. cbn [truthy].
  unfold the_table. rewrite Ht. rewrite bind_run. unfold ret at 1.
  cbn [strict_eq]. by destruct (bool_decide (roll t = "random")).
Qed.

(** *** Selection by a dice roll *)

(** A resolution whose roll lies in no row's range, step by step. *)
Lemma resolution_without_row (depth : nat) (config : string + Config)
    (t : Table) (r : DiceRollResult) (w' : W) (st : state W) :
  strict_eq (fetch (configured config)) (VString "random") = true →
  table (configured config) = Some t →
  roll t ≠ "random" →
  rows_exist (heap st) (outcomes t) →
  Dice_roll (roll_expression (configured config) (roll t)) (world st)
    = (Some r, w') →
  (∀ l o, l ∈ outcomes t → heap st !! l = Some o →
          in_range (total r) o = false) →
  let st' := {| heap := heap st ++ [empty_row]; world := w' |} in
  rollForRow Dice_roll (configured config) st =
    (Normal (VBool false, set_rollResult (VDice r) (configured config)),
     {| heap := heap st; world := w' |}) ∧
  ∃ a', new (S depth) config st = (Normal a', st') ∧
        rollResult a' = VDice r ∧
        data a' = VObject (length (heap st)) ∧
        toString a' st' = (Normal VUndefined, st').
Proof.
  intros Hf Ht Hroll Hex Hdice Hout st'.
  pose proof (rollForRow_run _ _ _ _ _ Ht Hex Hdice) as Hrun.
  rewrite last_where_none in Hrun by done.
  split; [done|].
  eexists. cbn [new_CharacterAttribute]. unfold constructor.
  rewrite (generate_select _ _ t) by (done || apply configured_fresh).
  rewrite bool_decide_eq_false_2 by done.
  rewrite bind_run, Hrun. rewrite set_data_primitive by done.
  cbn [heap world]. split; [done|]. split; [done|]. split; [done|].
  unfold toString, fields, data. cbn [_data set__data].
  rewrite bind_run. unfold read. cbn [heap st'].
  by rewrite lookup_app_r, Nat.sub_diag by done.
Qed.

(** C2, as the code has it: when the total of the roll lies in no row's
    range, [rollForRow] returns [false] and no failure is raised: the
    resolution returns normally with the roll recorded in [rollResult],
    and [toString()] of the attribute is [undefined]. *)
Theorem C2_total_outside_every_range (depth : nat) (config : string + Config)
    (t : Table) (r : DiceRollResult) (w' : W) (st : state W) :
  strict_eq (fetch (configured config)) (VString "random") = true →
  table (configured config) = Some t →
  roll t ≠ "random" →
  rows_exist (heap st) (outcomes t) →
  Dice_roll (roll_expression (configured config) (roll t)) (world st)
    = (Some r, w') →
  (∀ l o, l ∈ outcomes t → heap st !! l = Some o →
          in_range (total r) o = false) →
  (rollForRow Dice_roll (configured config) st).1 =
    Normal (VBool false, set_rollResult (VDice r) (configured config)) ∧
  ∃ a' st', new (S depth) config st = (Normal a', st') ∧
            world st' = w' ∧
            rollResult a' = VDice r ∧
            toString a' st' = (Normal VUndefined, st').
Proof.
  intros Hf Ht Hroll Hex Hdice Hout.
  destruct (resolution_without_row depth config t r w' st)
    as (Hrow & a' & Hnew & Hr & _ & Hs); try done.
  split; [by rewrite Hrow|]. eexists a', _. by split; [exact Hnew|].
Qed.

(** What a scan returns: [false], or a row of the table that
    satisfies the test. *)
Lemma last_where_result (p : Row → bool) (h : list Row) (ls : list nat) :
  last_where p h ls (VBool false) = VBool false ∨
  ∃ l o, last_where p h ls (VBool false) = VObject l ∧
         l ∈ ls ∧ h !! l = Some o ∧ p o = true.
Proof.
  induction ls as [|l ls IH] using rev_ind; [by left|].
  rewrite last_where_app. unfold last_where at 1 3. cbn [foldl].
  destruct (h !! l) as [o|] eqn:Ho; [destruct (p o) eqn:Hp|].
  - right. exists l, o. rewrite elem_of_app, list_elem_of_singleton. auto.
  - destruct IH as [IH|(l' & o' & IH & Hin & Ho' & Hp')]; [by left|].
    right. exists l', o'. rewrite elem_of_app. auto.
  - destruct IH as [IH|(l' & o' & IH & Hin & Ho' & Hp')]; [by left|].
    right. exists l', o'. rewrite elem_of_app. auto.
Qed.

(** *** Lookup by value *)

Lemma lookup_key_self (v : value) : finds_itself v → lookup_key v = v.
Proof.
  destruct v as [| | |[z|]|s| |]; try done; unfold lookup_key; cbn.
  - intros _. by rewrite parseInt_Int.
  - by intros ->.
Qed.

Lemma strict_eq_eq (a b : value) : strict_eq a b = true → a = b.
Proof.
  destruct a as [| |x|[x|]|x|x|x], b as [| |y|[y|]|y|y|y]; cbn; try done.
  - by intros ->%bool_decide_eq_true.
  - by intros ->%Z.eqb_eq.
  - by intros ->%bool_decide_eq_true.
  - by intros ->%bool_decide_eq_true.
Qed.

Lemma strict_eq_self (v : value) : finds_itself v → strict_eq v v = true.
Proof.
  destruct v as [| | |[z|]|s| |]; try done; cbn; intros _.
  - apply Z.eqb_refl.
  - by apply bool_decide_eq_true.
Qed.

(** C7, as the code has it: a row whose outcome value is an integer, or
    a string that does not read as a number, and is shared with no
    other row of the table, is found by looking that value up.  In
    general [find] compares, with [===], the rows' outcome values to
    the key: [parseInt] of the lookup value when its numeric coercion
    is not [NaN], the lookup value itself otherwise. *)
Theorem C7_find_row_by_own_outcome (a : Attribute) (t : Table)
    (st : state W) (i l : nat) (o : Row) :
  table a = Some t →
  rows_exist (heap st) (outcomes t) →
  outcomes t !! i = Some l →
  heap st !! l = Some o →
  finds_itself (outcome o) →
  (∀ j l' o', j ≠ i → outcomes t !! j = Some l' →
              heap st !! l' = Some o' → outcome o' ≠ outcome o) →
  find a (outcome o) st = (Normal (VObject l), st) ∧
  ∀ lookup, ∃ found,
    find a lookup st = (Normal found, st) ∧
    (found = VBool false ∨
     ∃ l' o', found = VObject l' ∧ l' ∈ outcomes t ∧
              heap st !! l' = Some o' ∧
              strict_eq (lookup_key lookup) (outcome o') = true).
Proof.
  intros Ht Hex Hi Ho Hself Hothers. split.
  - rewrite (find_run a t) by done. do 2 f_equal.
    apply (last_where_only _ _ _ _ i l o); try done.
    + rewrite lookup_key_self by done. by apply strict_eq_self.
    + intros j l' o' Hj Hl' Ho'.
      destruct (strict_eq _ _) eqn:E; [|done].
      apply strict_eq_eq in E. rewrite lookup_key_self in E by done.
      by destruct (Hothers j l' o').
  - intros lookup. eexists. split; [by apply find_run|].
    apply last_where_result.
Qed.

(** [generate] when the lookup by value finds no row: the data become
    the empty object, which is truthy, and no row is selected. *)
Lemma generate_lookup_miss (sub : string + Config → M W Attribute)
    (a : Attribute) (st : state W) :
  strict_eq (fetch a) (VString "random") = false →
  find a (fetch a) st = (Normal (VBool false), st) →
  generate Math_random Dice_roll TABLES sub a st =
    (Normal (set__data (VObject (length (heap st))) a),
     {| heap := heap st ++ [empty_row]; world := world st |}).
Proof.
  intros Hf Hfind. unfold generate. rewrite Hf. cbn [negb].
  rewrite bind_run, bind_run, Hfind.
  by rewrite set_data_primitive.
Qed.

(** *** Selection by a random index *)

Ltac by_cases :=
  unfold mbind, M_bind, bind, ret, throw in *;
  repeat (case_match; simplify_eq/=); eauto.

Lemma set_data_result (sub : string + Config → M W Attribute)
    (a a' : Attribute) (v : value) (st st' : state W) :
  set_data Dice_roll TABLES sub a v st = (Normal a', st') →
  a' = set__data (VObject (length (heap st))) a.
Proof.
  unfold set_data, alloc, write_translate, read. intros H.
  destruct v; by_cases.
Qed.

Lemma randomRow_result (a a' : Attribute) (v : value) (st st' : state W) :
  randomRow Math_random a st = (Normal (v, a'), st') →
  ∃ i, a' = set_rollResult (VNumber (Int i)) a.
Proof. unfold randomRow, random, the_table. intros H. by_cases. Qed.

Lemma rollForRow_result (a a' : Attribute) (v : value) (st st' : state W) :
  rollForRow Dice_roll a st = (Normal (v, a'), st') →
  ∃ r, a' = set_rollResult (VDice r) a.
Proof.
  unfold rollForRow, roll_, dice_roll, the_table. intros H. by_cases.
Qed.

Lemma generate_rollResult (sub : string + Config → M W Attribute)
    (a a' : Attribute) (st st' : state W) :
  rollResult a = VUndefined →
  generate Math_random Dice_roll TABLES sub a st = (Normal a', st') →
  roll_record (rollResult a').
Proof.
  intros Ha. unfold generate. rewrite bind_run.
  destruct (negb _).
  - rewrite bind_run.
    destruct (find a (fetch a) st) as [[found| |] st1]; try done.
    destruct (set_data _ _ _ _ _ _) as [[a1| |] st2] eqn:E1; try done.
    apply set_data_result in E1 as ->. cbn [data _data set__data truthy].
    unfold ret. intros [= <- <-]. left. done.
  - unfold ret at 1. destruct (truthy (data a)).
    { unfold ret. intros [= <- <-]. by left. }
    rewrite bind_run.
    destruct (the_table a st) as [[t| |] st1]; try done.
    destruct (strict_eq _ _); rewrite bind_run.
    + destruct (randomRow _ _ _) as [[[v a1]| |] st2] eqn:E1; try done.
      apply randomRow_result in E1 as [i ->].
      intros ->%set_data_result. right. left. by exists i.
    + destruct (rollForRow _ _ _) as [[[v a1]| |] st2] eqn:E1; try done.
      apply rollForRow_result in E1 as [r ->].
      intros ->%set_data_result. right. right. by exists r.
Qed.

Lemma new_rollResult (depth : nat) (config : string + Config)
    (a' : Attribute) (st st' : state W) :
  new depth config st = (Normal a', st') → roll_record (rollResult a').
Proof.
  destruct depth as [|depth]; [done|]. cbn [new_CharacterAttribute].
  unfold constructor. apply generate_rollResult, configured_fresh.
Qed.

(** C4, as the code has it: for a table whose strategy is ["random"],
    resolution draws [u] from [Math.random], takes the row at index
    [floor(u * length)], the product being that of two doubles, and
    records that index, a plain number, in [rollResult].  For a draw in
    [[0,1)] and a table with rows the index is that of a row: the floor
    of the exact product, or one more where the product rounds up to
    an integer.  After
    any resolution [rollResult] is unset, such an index or a dice roll
    result. *)
Theorem C4_random_row_records_index (depth : nat) (config : string + Config)
    (t : Table) (u : Q) (w' : W) (st : state W) :
  strict_eq (fetch (configured config)) (VString "random") = true →
  table (configured config) = Some t →
  roll t = "random" →
  Math_random (world st) = (u, w') →
  let n := Z.of_nat (length (outcomes t)) in
  let i := Qfloor (Number_multiply u (inject_Z n)) in
  new (S depth) config st =
    set_data Dice_roll TABLES (new depth)
      (set_rollResult (VNumber (Int i)) (configured config))
      (at_index (outcomes t) i)
      {| heap := heap st; world := w' |} ∧
  (∀ a' st', new (S depth) config st = (Normal a', st') →
             rollResult a' = VNumber (Int i)) ∧
  (is_double u → (0 <= u)%Q → (u < 1)%Q → 0 < n →
     0 ≤ i < n ∧
     (∃ l, outcomes t !! Z.to_nat i = Some l ∧
           at_index (outcomes t) i = VObject l) ∧
     (n ≤ 2 ^ 53 →
      Qfloor (u * inject_Z n) ≤ i ≤ Qfloor (u * inject_Z n) + 1)) ∧
  (∀ depth' config' st0 a' st', new depth' config' st0 = (Normal a', st') →
     roll_record (rollResult a')).
Proof.
  intros Hf Ht Hroll Hu n i.
  assert (new (S depth) config st =
    set_data Dice_roll TABLES (new depth)
      (set_rollResult (VNumber (Int i)) (configured config))
      (at_index (outcomes t) i)
      {| heap := heap st; world := w' |}) as Hrun.
  { cbn [new_CharacterAttribute]. unfold constructor.
    rewrite (generate_select _ _ t) by (done || apply configured_fresh).
    rewrite bool_decide_eq_true_2 by done.
    by rewrite bind_run, (randomRow_run _ t u w') by done. }
  split; [done|]. split; [|split].
  - intros a' st'. rewrite Hrun. by intros ->%set_data_result.
  - intros Hd H0 H1 Hn.
    pose proof (random_index u n Hd H0 H1 Hn) as Hi. fold i in Hi.
    split; [done|]. split.
    + destruct (lookup_lt_is_Some_2 (outcomes t) (Z.to_nat i)) as [l Hl];
        [unfold n in Hi; lia|].
      exists l. split; [done|]. unfold at_index.
      by rewrite (proj2 (Z.ltb_ge _ _) (proj1 Hi)), Hl.
    + intros Hn53. by apply random_index_near.
  - intros depth' config' st0 a' st'. apply new_rollResult.
Qed.

(** *** Placeholder expansion *)

(** C8: a template without a marker is returned as it is, and nothing
    is drawn, rolled or allocated. *)
Theorem C8_plain_text_unchanged (sub : string + Config → M W Attribute)
    (a : Attribute) (plainText : string) (st : state W) :
  ¬ has_marker plainText →
  translateOutcome Dice_roll TABLES sub a plainText st
    = (Normal plainText, st).
Proof.
  intros Hno. unfold translateOutcome.
  by rewrite match_markers_plain.
Qed.

(** A template with one marker: the marker is replaced by the value for
    its keyword, and the text around it stays. *)
Lemma translateOutcome_single (sub : string + Config → M W Attribute)
    (a : Attribute) (l k r : string) (st : state W) :
  without is_open l = true →
  without is_open k = true → without is_close k = true →
  without is_line_terminator k = true →
  without is_open r = true →
  translateOutcome Dice_roll TABLES sub a (l +:+ "{{" +:+ k +:+ "}}" +:+ r) st =
    (v ← replacement_for Dice_roll TABLES sub a k
           (l +:+ "{{" +:+ k +:+ "}}" +:+ r);
     ret (l +:+
          GetSubstitution ("{{" +:+ k +:+ "}}") l r [k] (ToString v) +:+ r)) st.
Proof.
  intros Hl Hko Hkc Hkl Hr. unfold translateOutcome.
  rewrite match_markers_single by done. cbn [forEach].
  rewrite strip_braces_marker by done.
  unfold mbind, M_bind, bind, ret.
  destruct (replacement_for _ _ _ _ _ _ _) as [[v| |] st']; [|done..].
  unfold replace_marker. by rewrite find_marker_simple by done.
Qed.

Lemma configured_by_name (tableName : string) :
  fetch (configured (inl tableName)) = VString "random" ∧
  table (configured (inl tableName)) = TABLES !! toKey tableName.
Proof. done. Qed.

(** C6, as the code has it: for every marker processed, the keyword is
    the matched text without its braces and the substituted value is,
    in this order of precedence: the [toString()] of a new attribute
    constructed from the keyword (so resolved at random) when
    [TABLES] has the keyword; else, for the keyword [extra] on a row
    with an extra-text function, what that function returns for the
    text as the earlier substitutions have left it; else the total of
    rolling the keyword. *)
Theorem C6_marker_precedence (sub : string + Config → M W Attribute)
    (a : Attribute) (keyword text : string) (st : state W) :
  (is_Some (TABLES !! keyword) →
     replacement_for Dice_roll TABLES sub a keyword text st =
       (table ← sub (inl keyword); toString table) st) ∧
  (TABLES !! keyword = None → keyword = "extra" →
     ∀ l d f, data a = VObject l → heap st !! l = Some d →
              extra d = Some f →
       replacement_for Dice_roll TABLES sub a keyword text st =
         (Normal (f text), st)) ∧
  (TABLES !! keyword = None →
     (keyword ≠ "extra" ∨
      ∃ l d, data a = VObject l ∧ heap st !! l = Some d ∧ extra d = None) →
     replacement_for Dice_roll TABLES sub a keyword text st =
       (r ← dice_roll Dice_roll keyword; ret (VNumber (Int (total r)))) st) ∧
  (∀ template,
     translateOutcome Dice_roll TABLES sub a template =
       forEach (match_markers template)
         (λ text m,
            v ← replacement_for Dice_roll TABLES sub a (strip_braces m) text;
            ret (replace_marker text v))
         template) ∧
  (fetch (configured (inl keyword)) = VString "random" ∧
   table (configured (inl keyword)) = TABLES !! toKey keyword).
Proof.
  unfold replacement_for. repeat split.
  - intros Hk. by rewrite bool_decide_eq_true_2.
  - intros Hk -> l d f Ha Hd Hf.
    rewrite bool_decide_eq_false_2 by (rewrite Hk; by intros [? ?]).
    rewrite bool_decide_eq_true_2 by done.
    rewrite bind_run. unfold fields. rewrite Ha, (read_Some l d) by done.
    by rewrite Hf.
  - intros Hk Hextra.
    rewrite bool_decide_eq_false_2 by (rewrite Hk; by intros [? ?]).
    destruct Hextra as [Hne|(l & d & Ha & Hd & Hf)].
    + by rewrite bool_decide_eq_false_2.
    + rewrite bind_run. case_bool_decide; [|done].
      unfold fields. rewrite Ha, (read_Some l d) by done.
      by rewrite Hf.
Qed.

(** *** The heap across a resolution *)

Lemma extends_ret {A} (a : A) : extends (ret a : M W A).
Proof. by intros st. Qed.

Lemma extends_throw {A} (e : exn) : extends (throw e : M W A).
Proof. by intros st. Qed.

Lemma extends_bind {A B} (m : M W A) (k : A → M W B) :
  extends m → (∀ a, extends (k a)) → extends (m ≫= k).
Proof.
  intros Hm Hk st. rewrite bind_run. specialize (Hm st).
  destruct (m st) as [[a| |] st1]; try done.
  etrans; [exact Hm|]. apply Hk.
Qed.

Lemma extends_read (l : nat) : extends (read l : M W Row).
Proof. intros st. unfold read. by destruct (heap st !! l). Qed.

Lemma extends_alloc (o : Row) : extends (alloc o : M W nat).
Proof. intros st. by apply prefix_app_r. Qed.

Lemma extends_random : extends (random Math_random).
Proof. intros st. unfold random. by destruct (Math_random _). Qed.

Lemma extends_dice_roll (e : string) : extends (dice_roll Dice_roll e).
Proof. intros st. unfold dice_roll. by destruct (Dice_roll _ _). Qed.

Lemma extends_forEach {A B} (xs : list A) (f : B → A → M W B) (b : B) :
  (∀ b x, extends (f b x)) → extends (forEach xs f b).
Proof.
  intros Hf. revert b. induction xs as [|x xs IH]; intros b; cbn [forEach].
  - apply extends_ret.
  - by apply extends_bind.
Qed.

Lemma extends_fields (v : value) : extends (fields v : M W Row).
Proof.
  destruct v; first [apply extends_read|apply extends_throw|apply extends_ret].
Qed.

Lemma extends_the_table (a : Attribute) : extends (the_table a : M W Table).
Proof. unfold the_table. destruct (table a); [apply extends_ret|apply extends_throw]. Qed.

Create HintDb frame.

Local Hint Resolve extends_ret extends_throw extends_read extends_alloc
  extends_random extends_dice_roll extends_fields extends_the_table : frame.

Ltac frame :=
  repeat first
    [ (by auto with frame)
    | apply extends_bind; [|intros ?]
    | apply extends_forEach; intros ? ?
    | match goal with
      | |- extends (match ?x with _ => _ end) => destruct x
      | |- extends (if ?x then _ else _) => destruct x
      end ].

Lemma extends_find (a : Attribute) (lookup : value) : extends (find a lookup : M W value).
Proof. unfold find. frame. Qed.

Lemma extends_randomRow (a : Attribute) : extends (randomRow Math_random a).
Proof. unfold randomRow. frame. Qed.

Lemma extends_rollForRow (a : Attribute) : extends (rollForRow Dice_roll a).
Proof. unfold rollForRow, roll_. frame. Qed.

Lemma extends_toString (a : Attribute) : extends (toString a : M W value).
Proof. unfold toString. frame. Qed.

Local Hint Resolve extends_find extends_randomRow extends_rollForRow
  extends_toString : frame.

Section Frame.

Variable sub : string + Config → M W Attribute.
Hypothesis extends_sub : ∀ config, extends (sub config).

Lemma extends_translateOutcome (a : Attribute) (s : string) :
  extends (translateOutcome Dice_roll TABLES sub a s).
Proof. unfold translateOutcome, replacement_for. frame. Qed.

(** [set data] writes to the copy it has just made, and only there. *)
Lemma extends_set_data (a : Attribute) (v : value) :
  extends (set_data Dice_roll TABLES sub a v).
Proof.
  intros st. unfold set_data. rewrite bind_run.
  assert (∀ source,
    heap st `prefix_of`
    heap ((l ← alloc source;
           let a := set__data (VObject l) a in
           match translate source with
           | Some s =>
               if truthy (VString s)
               then s' ← translateOutcome Dice_roll TABLES sub a s;
                    _ ← write_translate l s'; ret a
               else ret a
           | None => ret a
           end) st).2) as Hcopy.
  { intros source. rewrite bind_run. unfold alloc at 1.
    destruct (translate source) as [s|]; [|by apply prefix_app_r].
    destruct (truthy (VString s)); [|by apply prefix_app_r].
    rewrite bind_run.
    pose proof (extends_translateOutcome
                  (set__data (VObject (length (heap st))) a) s
                  {| heap := heap st ++ [source]; world := world st |})
      as [k Hk].
    destruct (translateOutcome _ _ _ _ _ _) as [[s'| |] st1];
      cbn [snd heap] in Hk;
      [|cbn; rewrite Hk, <- app_assoc; by eexists..].
    rewrite bind_run. unfold write_translate at 1, ret. cbn [snd heap].
    rewrite Hk, <- app_assoc.
    rewrite alter_app_r_alt, Nat.sub_diag by done. by eexists. }
  destruct v; try apply Hcopy.
  unfold read. destruct (heap st !! l); [apply Hcopy|done].
Qed.

Lemma extends_generate (a : Attribute) :
  extends (generate Math_random Dice_roll TABLES sub a).
Proof.
  pose proof extends_set_data. unfold generate. frame.
Qed.

End Frame.

Lemma extends_new (depth : nat) (config : string + Config) :
  extends (new depth config).
Proof.
  revert config. induction depth as [|depth IH]; intros config;
    [by intros st|].
  cbn [new_CharacterAttribute]. unfold constructor.
  by apply extends_generate.
Qed.

Lemma keeps_heap_bind {A B} (m : M W A) (k : A → M W B) :
  keeps_heap m → (∀ a, keeps_heap (k a)) → keeps_heap (m ≫= k).
Proof.
  intros Hm Hk st. rewrite bind_run. specialize (Hm st).
  destruct (m st) as [[a| |] st1]; try done.
  by rewrite Hk.
Qed.

Lemma keeps_heap_read (l : nat) : keeps_heap (read l : M W Row).
Proof. intros st. unfold read. by destruct (heap st !! l). Qed.

Lemma keeps_heap_forEach {A B} (xs : list A) (f : B → A → M W B) (b : B) :
  (∀ b x, keeps_heap (f b x)) → keeps_heap (forEach xs f b).
Proof.
  intros Hf. revert b. induction xs as [|x xs IH]; intros b; cbn [forEach].
  - done.
  - by apply keeps_heap_bind.
Qed.

Lemma keeps_heap_the_table (a : Attribute) :
  keeps_heap (the_table a : M W Table).
Proof. unfold the_table. by destruct (table a). Qed.

Lemma keeps_heap_find (a : Attribute) (lookup : value) :
  keeps_heap (find a lookup : M W value).
Proof.
  unfold find. apply keeps_heap_bind; [apply keeps_heap_the_table|].
  intros t. apply keeps_heap_forEach. intros b l.
  apply keeps_heap_bind; [apply keeps_heap_read|done].
Qed.

Lemma keeps_heap_randomRow (a : Attribute) :
  keeps_heap (randomRow Math_random a).
Proof.
  unfold randomRow. apply keeps_heap_bind.
  - intros st. unfold random. by destruct (Math_random _).
  - intros u. apply keeps_heap_bind; [apply keeps_heap_the_table|done].
Qed.

Lemma keeps_heap_rollForRow (a : Attribute) :
  keeps_heap (rollForRow Dice_roll a).
Proof.
  unfold rollForRow. apply keeps_heap_bind; [apply keeps_heap_the_table|].
  intros t. apply keeps_heap_bind.
  - intros st. unfold roll_, dice_roll. by destruct (Dice_roll _ _).
  - intros r. apply keeps_heap_bind; [|done].
    apply keeps_heap_forEach. intros b l.
    apply keeps_heap_bind; [apply keeps_heap_read|done].
Qed.

(** The data of a resolved attribute are the object that [set data]
    allocated: the first new object of the resolution. *)
Lemma generate_data (sub : string + Config → M W Attribute)
    (a a' : Attribute) (st st' : state W) :
  data a = VUndefined →
  generate Math_random Dice_roll TABLES sub a st = (Normal a', st') →
  data a' = VObject (length (heap st)).
Proof.
  intros Ha. unfold generate. rewrite bind_run.
  destruct (negb _).
  - rewrite bind_run. pose proof (keeps_heap_find a (fetch a) st) as Hh.
    destruct (find a (fetch a) st) as [[found| |] st1]; try done.
    destruct (set_data _ _ _ _ _ _) as [[a1| |] st2] eqn:E1; try done.
    apply set_data_result in E1 as ->. cbn [data _data set__data truthy].
    unfold ret. intros [= <- <-]. cbn in *. by rewrite Hh.
  - unfold ret at 1. rewrite Ha. cbn [truthy].
    rewrite bind_run.
    destruct (the_table a st) as [[t| |] st1] eqn:Et; try done.
    pose proof (keeps_heap_the_table a st) as Ht. rewrite Et in Ht.
    destruct (strict_eq _ _); rewrite bind_run.
    + pose proof (keeps_heap_randomRow a st1) as Hh.
      destruct (randomRow _ _ _) as [[[v a1]| |] st2] eqn:E1; try done.
      intros ->%set_data_result. cbn in *. by rewrite Hh, Ht.
    + pose proof (keeps_heap_rollForRow a st1) as Hh.
      destruct (rollForRow _ _ _) as [[[v a1]| |] st2] eqn:E1; try done.
      intros ->%set_data_result. cbn in *. by rewrite Hh, Ht.
Qed.

(** C9: every object that exists before a resolution -- the rows of the
    tables among them -- has the same fields after it, however the
    resolution ends, and so after any number of resolutions.  The data
    of the resolved attribute are a new object, the copy that
    [set data] made, and what [set data] writes it writes there. *)
Theorem C9_rows_keep_their_fields (depth : nat)
    (configs : list (string + Config)) (st : state W) :
  heap st `prefix_of` heap (resolve_all Math_random Dice_roll TABLES depth configs st) ∧
  (∀ config, heap st `prefix_of` heap (new depth config st).2) ∧
  (∀ config a', (new depth config st).1 = Normal a' →
                data a' = VObject (length (heap st))).
Proof.
  split; [|split].
  - revert st. induction configs as [|config configs IH]; intros st; [done|].
    cbn [resolve_all]. etrans; [apply (extends_new depth config)|apply IH].
  - intros config; apply extends_new.
  - intros config a'. destruct depth as [|depth]; [done|].
    cbn [new_CharacterAttribute]. unfold constructor.
    destruct (generate _ _ _ _ _ _) as [r st'] eqn:E. cbn. intros ->.
    eapply generate_data; [|exact E]. apply configured_fresh.
Qed.

(** ** Further properties of the resolver *)

(** *** Table names *)

(** X1: [toKey] yields a string in key format (no white space, no
    upper-case letter) of the same length, leaves such a string as it is
    and so is idempotent; an attribute constructed by a name and one
    constructed by the key of the name have the same table. *)
Theorem toKey_key_format (str : string) :
  key_format (toKey str) = true ∧
  String.length (toKey str) = String.length str ∧
  toKey (toKey str) = toKey str ∧
  (key_format str = true → toKey str = str) ∧
  table (configured (inl str)) = table (configured (inl (toKey str))).
Proof.
  unfold toKey. repeat split.
  - apply dash_lower_key_format.
  - apply dash_lower_length.
  - apply dash_lower_idempotent.
  - apply dash_lower_fixed.
  - cbn. unfold toKey. by rewrite dash_lower_idempotent.
Qed.

(** X2: constructing an attribute whose table name has no table, or
    whose configuration has no table name, throws a [TypeError] before
    anything is drawn or allocated. *)
Theorem unknown_table_throws (depth : nat) (config : string + Config)
    (st : state W) :
  table (configured config) = None →
  new (S depth) config st = (Throw TypeError, st).
Proof.
  intros Ht. cbn [new_CharacterAttribute]. unfold constructor, generate.
  rewrite bind_run. destruct (negb _).
  - rewrite bind_run. unfold find, the_table. by rewrite Ht.
  - unfold ret at 1. destruct (configured_fresh config) as [-> _].
    cbn [truthy]. unfold the_table. by rewrite Ht.
Qed.

(** *** Dice expressions *)

(** X3: an expression in which [MOD] does not occur is rolled as it is,
    whatever the roll modifier. *)
Theorem roll_without_MOD (a : Attribute) (dice : string) :
  ¬ Str.occurs "MOD" dice →
  roll_ Dice_roll a dice = dice_roll Dice_roll dice.
Proof. intros H. unfold roll_. by rewrite roll_expression_none. Qed.

(** *** Scans *)

Lemma last_where_false (p : Row → bool) (h : list Row) (ls : list nat)
    (init : value) :
  last_where p h ls init = VBool false →
  init = VBool false ∧ ∀ l o, l ∈ ls → h !! l = Some o → p o = false.
Proof.
  revert init. induction ls as [|l ls IH]; intros init.
  - unfold last_where. cbn [foldl]. intros ->. split; [done|].
    intros l o Hin. by apply elem_of_nil in Hin.
  - unfold last_where. cbn [foldl]. intros [Hinit Hrest]%IH.
    destruct (h !! l) as [o|] eqn:Ho.
    + destruct (p o) eqn:Hp; [done|]. split; [done|].
      intros l' o' [->|Hin]%elem_of_cons Ho'; [by simplify_eq|eauto].
    + split; [done|].
      intros l' o' [->|Hin]%elem_of_cons Ho'; [by simplify_eq|eauto].
Qed.

Lemma in_range_contains (total : Z) (o : Row) :
  in_range total o = true ↔ contains o total.
Proof.
  unfold in_range, contains. destruct (min o) as [lo|], (max o) as [hi|]; cbn.
  - rewrite andb_true_iff, !Z.leb_le. split.
    + intros [??]. by exists lo, hi.
    + intros (? & ? & [= <-] & [= <-] & ?). lia.
  - split; [by rewrite andb_false_r|]. by intros (? & ? & _ & [=] & _).
  - split; [done|]. by intros (? & ? & [=] & _).
  - split; [done|]. by intros (? & ? & [=] & _).
Qed.

(** X4: [find] returns [false] exactly when no row of the table has an
    outcome value strictly equal to the key, and otherwise a row of the
    table that has; it reads and changes nothing else. *)
Theorem find_false_iff_no_row (a : Attribute) (t : Table) (lookup : value)
    (st : state W) :
  table a = Some t →
  rows_exist (heap st) (outcomes t) →
  ∃ found,
    find a lookup st = (Normal found, st) ∧
    (found = VBool false ↔
       ∀ l o, l ∈ outcomes t → heap st !! l = Some o →
              strict_eq (lookup_key lookup) (outcome o) = false) ∧
    (found ≠ VBool false →
       ∃ l o, found = VObject l ∧ l ∈ outcomes t ∧ heap st !! l = Some o ∧
              strict_eq (lookup_key lookup) (outcome o) = true).
Proof.
  intros Ht Hex. eexists. split; [by apply find_run|]. split.
  - split.
    + by intros [_ H]%last_where_false.
    + intros H. by apply last_where_none.
  - intros Hne.
    destruct (last_where_result (λ o, strict_eq (lookup_key lookup) (outcome o))
                (heap st) (outcomes t)) as [E|H]; [done|exact H].
Qed.

(** X5: [rollForRow] records the roll and returns a row whose range
    contains the total whenever the table has one, [false] exactly when
    it has none. *)
Theorem rollForRow_finds_a_row (a : Attribute) (t : Table)
    (r : DiceRollResult) (w' : W) (st : state W) :
  table a = Some t →
  rows_exist (heap st) (outcomes t) →
  Dice_roll (roll_expression a (roll t)) (world st) = (Some r, w') →
  ∃ found,
    rollForRow Dice_roll a st =
      (Normal (found, set_rollResult (VDice r) a),
       {| heap := heap st; world := w' |}) ∧
    (found = VBool false ↔
       ∀ l o, l ∈ outcomes t → heap st !! l = Some o → ¬ contains o (total r)) ∧
    (found ≠ VBool false →
       ∃ l o, found = VObject l ∧ l ∈ outcomes t ∧ heap st !! l = Some o ∧
              contains o (total r)).
Proof.
  intros Ht Hex Hroll. eexists. split; [by apply (rollForRow_run a t r w')|].
  split.
  - split.
    + intros [_ H]%last_where_false l o Hin Ho Hc%in_range_contains.
      by rewrite (H l o) in Hc.
    + intros H. apply last_where_none. intros l o Hin Ho.
      destruct (in_range (total r) o) eqn:E; [|done].
      apply in_range_contains in E. by destruct (H l o).
  - intros Hne.
    destruct (last_where_result (in_range (total r)) (heap st) (outcomes t))
      as [E|(l & o & E & Hin & Ho & Hc)]; [done|].
    exists l, o. by rewrite <- in_range_contains.
Qed.

(** *** Resolutions *)

Lemma toString_plain (a : Attribute) (l : nat) (o : Row) (st : state W) :
  data a = VObject l → heap st !! l = Some o → untemplated o →
  toString a st = (Normal (outcome o), st).
Proof.
  intros Ha Ho Hu. unfold toString, fields. rewrite Ha, bind_run.
  rewrite (read_Some l o) by done. by destruct Hu as [-> | ->].
Qed.

Lemma lookup_new_object (h : list Row) (o : Row) :
  (h ++ [o]) !! length h = Some o.
Proof. by rewrite lookup_app_r, Nat.sub_diag by done. Qed.

(** [generate] when the lookup by value finds a row. *)
Lemma generate_found (sub : string + Config → M W Attribute)
    (a : Attribute) (l : nat) (st : state W) :
  strict_eq (fetch a) (VString "random") = false →
  find a (fetch a) st = (Normal (VObject l), st) →
  generate Math_random Dice_roll TABLES sub a st =
    set_data Dice_roll TABLES sub a (VObject l) st.
Proof.
  intros Hf Hfind. unfold generate. rewrite Hf. cbn [negb].
  rewrite bind_run, bind_run, Hfind.
  destruct (set_data _ _ _ _ _ _) as [[a1| |] st1] eqn:E; try done.
  apply set_data_result in E as ->. done.
Qed.

Lemma find_own (a : Attribute) (t : Table) (st : state W) (i l : nat)
    (o : Row) :
  table a = Some t →
  rows_exist (heap st) (outcomes t) →
  outcomes t !! i = Some l →
  heap st !! l = Some o →
  finds_itself (outcome o) →
  (∀ j l' o', j ≠ i → outcomes t !! j = Some l' →
              heap st !! l' = Some o' → outcome o' ≠ outcome o) →
  find a (outcome o) st = (Normal (VObject l), st).
Proof.
  intros Ht Hex Hi Ho Hself Hothers.
  rewrite (find_run a t) by done. do 2 f_equal.
  apply (last_where_only _ _ _ _ i l o); try done.
  - rewrite lookup_key_self by done. by apply strict_eq_self.
  - intros j l' o' Hj Hl' Ho'.
    destruct (strict_eq _ _) eqn:E; [|done].
    apply strict_eq_eq in E. rewrite lookup_key_self in E by done.
    by destruct (Hothers j l' o').
Qed.

(** X6: when [fetch] is the outcome value of a row that [find] finds
    (an integer or a non-numeric string, shared with no other row, and
    not ["random"]), the resolution is [set data] of that row: nothing
    is drawn or rolled to select it.  For a row without template the
    attribute then holds a copy of the row, no roll result, and
    [toString()] is the row's outcome value. *)
Theorem fetch_by_value_selects_the_row (depth : nat)
    (config : string + Config) (t : Table) (st : state W) (i l : nat)
    (o : Row) :
  table (configured config) = Some t →
  rows_exist (heap st) (outcomes t) →
  outcomes t !! i = Some l →
  heap st !! l = Some o →
  fetch (configured config) = outcome o →
  outcome o ≠ VString "random" →
  finds_itself (outcome o) →
  (∀ j l' o', j ≠ i → outcomes t !! j = Some l' →
              heap st !! l' = Some o' → outcome o' ≠ outcome o) →
  new (S depth) config st =
    set_data Dice_roll TABLES (new depth) (configured config) (VObject l) st ∧
  (untemplated o →
     let st' := {| heap := heap st ++ [o]; world := world st |} in
     ∃ a', new (S depth) config st = (Normal a', st') ∧
           rollResult a' = VUndefined ∧
           toString a' st' = (Normal (outcome o), st')).
Proof.
  intros Ht Hex Hi Ho Hf Hne Hself Hothers.
  assert (new (S depth) config st =
    set_data Dice_roll TABLES (new depth) (configured config) (VObject l) st)
    as Hrun.
  { cbn [new_CharacterAttribute]. unfold constructor.
    apply generate_found.
    - rewrite Hf. destruct (strict_eq _ _) eqn:E; [|done].
      by apply strict_eq_eq in E.
    - rewrite Hf. by apply (find_own _ t _ i). }
  split; [done|]. intros Hu st'. rewrite Hrun.
  rewrite (set_data_plain _ _ l o) by done.
  eexists. split; [done|]. split; [apply configured_fresh|].
  apply (toString_plain _ (length (heap st)) o); [done| |done].
  apply lookup_new_object.
Qed.

(** X7: a [fetch] option that is falsy ([0], [""], [false], [NaN],
    [null], [undefined]) counts as ["random"]: nothing is looked up, and
    the row is selected by the strategy of the table. *)
Theorem falsy_fetch_is_random (depth : nat) (c : Config) (v : value)
    (t : Table) (st : state W) :
  cfg_fetch c = Some v →
  truthy v = false →
  table (configured (inr c)) = Some t →
  fetch (configured (inr c)) = VString "random" ∧
  new (S depth) (inr c) st =
    if bool_decide (roll t = "random")
    then ('(r, a) ← randomRow Math_random (configured (inr c));
          set_data Dice_roll TABLES (new depth) a r) st
    else ('(r, a) ← rollForRow Dice_roll (configured (inr c));
          set_data Dice_roll TABLES (new depth) a r) st.
Proof.
  intros Hc Hv Ht.
  assert (fetch (configured (inr c)) = VString "random") as Hf.
  { destruct c as [[n|] f [m|]]; cbn in Hc; subst f; unfold fetch; cbn;
      by rewrite Hv. }
  split; [done|]. cbn [new_CharacterAttribute]. unfold constructor.
  apply generate_select; [by rewrite Hf|apply configured_fresh|done].
Qed.

(** X8: on a table whose strategy is ["random"], with a draw [u >= 0]
    whose index [floor(u * length)], the product being that of two
    doubles, is that of a row without template,
    the resolution returns an attribute that holds a copy of that row in
    a new object; [toString()] is the row's outcome value. *)
Theorem random_resolution_copies_the_row (depth : nat)
    (config : string + Config) (t : Table) (u : Q) (w' : W) (st : state W)
    (l : nat) (o : Row) :
  strict_eq (fetch (configured config)) (VString "random") = true →
  table (configured config) = Some t →
  roll t = "random" →
  Math_random (world st) = (u, w') →
  (0 <= u)%Q →
  outcomes t !!
    Z.to_nat
      (Qfloor (Number_multiply u (inject_Z (Z.of_nat (length (outcomes t))))))
    = Some l →
  heap st !! l = Some o →
  untemplated o →
  let st' := {| heap := heap st ++ [o]; world := w' |} in
  ∃ a', new (S depth) config st = (Normal a', st') ∧
        data a' = VObject (length (heap st)) ∧
        heap st' !! length (heap st) = Some o ∧
        toString a' st' = (Normal (outcome o), st').
Proof.
  intros Hf Ht Hroll Hu H0 Hl Ho Hplain st'.
  cbn [new_CharacterAttribute]. unfold constructor.
  rewrite (generate_select _ _ t) by (done || apply configured_fresh).
  rewrite bool_decide_eq_true_2 by done.
  rewrite bind_run, (randomRow_run _ t u w') by done. cbv zeta.
  assert (0 ≤ Qfloor (Number_multiply u
                        (inject_Z (Z.of_nat (length (outcomes t)))))) as Hi.
  { rewrite <- (Qfloor_Z 0). apply Qfloor_resp_le.
    apply round_double_nonneg. apply Qmult_le_0_compat; [done|].
    change 0%Q with (inject_Z 0). rewrite <- Zle_Qle. lia. }
  unfold at_index. rewrite (proj2 (Z.ltb_ge _ _) Hi), Hl.
  rewrite (set_data_plain _ _ l o) by done.
  eexists. split; [done|]. split; [done|].
  split; [apply lookup_new_object|].
  apply (toString_plain _ (length (heap st)) o); [done| |done].
  apply lookup_new_object.
Qed.

(** X9: on a dice-ranged table of which exactly one row contains the
    total of the roll, the resolution returns an attribute that holds the
    roll and, for a row without template, a copy of that row;
    [toString()] is the row's outcome value. *)
Theorem dice_resolution_copies_the_row (depth : nat)
    (config : string + Config) (t : Table) (r : DiceRollResult) (w' : W)
    (st : state W) (i l : nat) (o : Row) :
  strict_eq (fetch (configured config)) (VString "random") = true →
  table (configured config) = Some t →
  roll t ≠ "random" →
  rows_exist (heap st) (outcomes t) →
  Dice_roll (roll_expression (configured config) (roll t)) (world st)
    = (Some r, w') →
  outcomes t !! i = Some l →
  heap st !! l = Some o →
  contains o (total r) →
  (∀ j l' o', j ≠ i → outcomes t !! j = Some l' →
              heap st !! l' = Some o' → ¬ contains o' (total r)) →
  untemplated o →
  let st' := {| heap := heap st ++ [o]; world := w' |} in
  ∃ a', new (S depth) config st = (Normal a', st') ∧
        rollResult a' = VDice r ∧
        data a' = VObject (length (heap st)) ∧
        heap st' !! length (heap st) = Some o ∧
        toString a' st' = (Normal (outcome o), st').
Proof.
  intros Hf Ht Hroll Hex Hdice Hi Ho Hc Hothers Hplain st'.
  cbn [new_CharacterAttribute]. unfold constructor.
  rewrite (generate_select _ _ t) by (done || apply configured_fresh).
  rewrite bool_decide_eq_false_2 by done.
  rewrite bind_run, (rollForRow_unique _ t r w' st i l o); try done.
  - rewrite (set_data_plain _ _ l o) by done.
    eexists. split; [done|]. split; [done|]. split; [done|].
    split; [apply lookup_new_object|].
    apply (toString_plain _ (length (heap st)) o); [done| |done].
    apply lookup_new_object.
  - by apply in_range_contains.
  - intros j l' o' Hj Hl' Ho'.
    destruct (in_range (total r) o') eqn:E; [|done].
    apply in_range_contains in E. by destruct (Hothers j l' o').
Qed.

(** X10: on a table without rows whose strategy is ["random"], the
    resolution raises nothing: the index recorded is [0], the data are
    an empty object and [toString()] is [undefined]. *)
Theorem empty_random_table (depth : nat) (config : string + Config)
    (t : Table) (u : Q) (w' : W) (st : state W) :
  strict_eq (fetch (configured config)) (VString "random") = true →
  table (configured config) = Some t →
  roll t = "random" →
  outcomes t = [] →
  Math_random (world st) = (u, w') →
  let st' := {| heap := heap st ++ [empty_row]; world := w' |} in
  ∃ a', new (S depth) config st = (Normal a', st') ∧
        rollResult a' = VNumber (Int 0) ∧
        toString a' st' = (Normal VUndefined, st').
Proof.
  intros Hf Ht Hroll Hempty Hu st'.
  cbn [new_CharacterAttribute]. unfold constructor.
  rewrite (generate_select _ _ t) by (done || apply configured_fresh).
  rewrite bool_decide_eq_true_2 by done.
  rewrite bind_run, (randomRow_run _ t u w') by done. cbv zeta.
  rewrite Hempty. cbn [length]. change (Z.of_nat 0) with 0.
  assert (Qfloor (Number_multiply u (inject_Z 0)) = 0) as ->.
  { destruct u as [n d].
    unfold Number_multiply, round_double, Qmult, inject_Z. cbn [Qnum Qden].
    by rewrite Z.mul_0_r. }
  cbn [at_index Z.ltb Z.compare]. rewrite set_data_primitive by done.
  eexists. split; [done|]. split; [done|].
  apply (toString_plain _ (length (heap st)) empty_row); [done| |by left].
  apply lookup_new_object.
Qed.

(** X11: the data of an attribute are a shallow copy of the row given to
    [set data]: a new object with the row's outcome value, bounds and
    extra-text function, and with its template too unless that was
    expanded; the row itself is left as it was. *)
Theorem data_is_a_copy (depth : nat) (a a' : Attribute) (l : nat) (o : Row)
    (st st' : state W) :
  heap st !! l = Some o →
  set_data Dice_roll TABLES (new depth) a (VObject l) st = (Normal a', st') →
  data a' = VObject (length (heap st)) ∧
  heap st' !! l = Some o ∧
  ∃ o', heap st' !! length (heap st) = Some o' ∧
        copy_of o o' ∧
        (untemplated o → o' = o).
Proof.
  intros Ho Hset.
  pose proof (set_data_result _ _ _ _ _ _ Hset) as ->.
  split; [done|].
  pose proof (extends_set_data (new depth) (extends_new depth) a (VObject l) st)
    as Hext.
  rewrite Hset in Hext. cbn [snd] in Hext.
  split; [by eapply prefix_lookup_Some|].
  revert Hset. unfold set_data.
  rewrite bind_run, (read_Some l o), bind_run by done. unfold alloc at 1.
  destruct (translate o) as [s|] eqn:Hs.
  - destruct (truthy (VString s)) eqn:Hts.
    + rewrite bind_run.
      pose proof (extends_translateOutcome (new depth) (extends_new depth)
                    (set__data (VObject (length (heap st))) a) s
                    {| heap := heap st ++ [o]; world := world st |})
        as [k Hk].
      destruct (translateOutcome _ _ _ _ _ _) as [[s'| |] st1]; try done.
      cbn [snd heap] in Hk. rewrite bind_run.
      unfold write_translate at 1, ret. intros [= <-]. cbn [heap].
      exists (with_translate s' o). split.
      * rewrite Hk, <- app_assoc.
        rewrite alter_app_r_alt, Nat.sub_diag by done.
        by rewrite lookup_app_r, Nat.sub_diag by done.
      * split; [done|]. intros [Hu|Hu]; rewrite Hs in Hu; [done|].
        injection Hu as ->. done.
    + unfold ret. intros [= <-]. exists o.
      split; [apply lookup_new_object|done].
  - unfold ret. intros [= <-]. exists o.
    split; [apply lookup_new_object|done].
Qed.

(** X22: when [set data] is given a row with a template and the
    expansion of the template returns a text, that text is written to
    the copy and is what [toString()] returns afterwards; when the
    expansion is empty, [toString()] is the row's outcome value. *)
Theorem expanded_template_is_the_string (depth : nat) (a : Attribute)
    (l : nat) (o : Row) (s s' : string) (st st2 : state W) :
  heap st !! l = Some o →
  translate o = Some s →
  s ≠ "" →
  translateOutcome Dice_roll TABLES (new depth)
    (set__data (VObject (length (heap st))) a) s
    {| heap := heap st ++ [o]; world := world st |} = (Normal s', st2) →
  ∃ a' st3,
    set_data Dice_roll TABLES (new depth) a (VObject l) st = (Normal a', st3) ∧
    world st3 = world st2 ∧
    heap st3 !! length (heap st) = Some (with_translate s' o) ∧
    toString a' st3 =
      (Normal (if bool_decide (s' = "") then outcome o else VString s'), st3).
Proof.
  intros Ho Hs Hne Hexp.
  pose proof (extends_translateOutcome (new depth) (extends_new depth)
                (set__data (VObject (length (heap st))) a) s
                {| heap := heap st ++ [o]; world := world st |}) as [k Hk].
  rewrite Hexp in Hk. cbn [snd heap] in Hk.
  assert (alter (with_translate s') (length (heap st)) (heap st2)
            !! length (heap st) = Some (with_translate s' o)) as Hcopy.
  { rewrite Hk, <- app_assoc.
    rewrite alter_app_r_alt, Nat.sub_diag by done.
    by rewrite lookup_app_r, Nat.sub_diag by done. }
  exists (set__data (VObject (length (heap st))) a),
    {| heap := alter (with_translate s') (length (heap st)) (heap st2);
       world := world st2 |}.
  split.
  - unfold set_data.
    rewrite bind_run, (read_Some l o), bind_run by done. unfold alloc at 1.
    rewrite Hs. cbn [truthy]. rewrite bool_decide_eq_false_2 by done.
    cbn [negb]. by rewrite bind_run, Hexp, bind_run.
  - split; [done|]. split; [exact Hcopy|].
    unfold toString, fields. cbn [data _data set__data].
    rewrite bind_run, (read_Some _ (with_translate s' o)) by exact Hcopy.
    unfold ret. cbn [translate with_translate truthy outcome].
    by destruct (bool_decide (s' = "")).
Qed.

(** *** Expansions *)

Lemma nonempty_template (l k r : string) :
  truthy (VString (l +:+ "{{" +:+ k +:+ "}}" +:+ r)) = true.
Proof. by destruct l. Qed.

(** X12: a template with one marker whose keyword is a table: the marker
    is replaced by the string of a new attribute of that table and the
    text around it stays as it is, provided that string holds no dollar
    sign. *)
Theorem table_marker_is_replaced (sub : string + Config → M W Attribute)
    (a suba : Attribute) (l k r : string) (v : value) (st st1 : state W) :
  without is_open l = true →
  without is_open k = true → without is_close k = true →
  without is_line_terminator k = true →
  without is_open r = true →
  is_Some (TABLES !! k) →
  sub (inl k) st = (Normal suba, st1) →
  toString suba st1 = (Normal v, st1) →
  dollar_free (ToString v) = true →
  translateOutcome Dice_roll TABLES sub a (l +:+ "{{" +:+ k +:+ "}}" +:+ r) st
    = (Normal (l +:+ ToString v +:+ r), st1).
Proof.
  intros Hl Hko Hkc Hkl Hr Hk Hsub Hstr Hv.
  rewrite translateOutcome_single by done.
  rewrite bind_run. unfold replacement_for.
  rewrite bool_decide_eq_true_2 by done.
  rewrite bind_run, Hsub, Hstr. unfold ret.
  by rewrite GetSubstitution_dollar_free.
Qed.

(** X13: a template with one marker whose keyword is neither a table
    nor [extra]: the keyword is rolled as a dice expression and the
    marker is replaced by the decimal string of the total (one that
    prints in positional notation); the text around it stays as it
    is. *)
Theorem dice_marker_is_replaced (sub : string + Config → M W Attribute)
    (a : Attribute) (l k r : string) (d : DiceRollResult) (w' : W)
    (st : state W) :
  without is_open l = true →
  without is_open k = true → without is_close k = true →
  without is_line_terminator k = true →
  without is_open r = true →
  TABLES !! k = None →
  k ≠ "extra" →
  Dice_roll k (world st) = (Some d, w') →
  positional (total d) →
  translateOutcome Dice_roll TABLES sub a (l +:+ "{{" +:+ k +:+ "}}" +:+ r) st
    = (Normal (l +:+ number_to_string (Int (total d)) +:+ r),
       {| heap := heap st; world := w' |}).
Proof.
  intros Hl Hko Hkc Hkl Hr Hk Hne Hroll _.
  rewrite translateOutcome_single by done.
  rewrite bind_run. unfold replacement_for.
  rewrite bool_decide_eq_false_2 by (rewrite Hk; by intros [? ?]).
  rewrite bool_decide_eq_false_2 by done.
  rewrite bind_run. unfold ret at 1. cbn [extra empty_row].
  rewrite bind_run. unfold dice_roll at 1. rewrite Hroll. unfold ret.
  cbn [ToString].
  by rewrite GetSubstitution_dollar_free
    by apply number_to_string_dollar_free.
Qed.

(** X14: the string of the sub-attribute is read as a replacement
    pattern: where it holds [$&], the marker itself is put back. *)
Theorem dollar_ampersand_restores_marker
    (sub : string + Config → M W Attribute)
    (a suba : Attribute) (l k r p q : string) (v : value)
    (st st1 : state W) :
  without is_open l = true →
  without is_open k = true → without is_close k = true →
  without is_line_terminator k = true →
  without is_open r = true →
  is_Some (TABLES !! k) →
  sub (inl k) st = (Normal suba, st1) →
  toString suba st1 = (Normal v, st1) →
  ToString v = p +:+ "$&" +:+ q →
  dollar_free p = true → dollar_free q = true →
  translateOutcome Dice_roll TABLES sub a (l +:+ "{{" +:+ k +:+ "}}" +:+ r) st
    = (Normal (l +:+ (p +:+ ("{{" +:+ k +:+ "}}") +:+ q) +:+ r), st1).
Proof.
  intros Hl Hko Hkc Hkl Hr Hk Hsub Hstr Hv Hp Hq.
  rewrite translateOutcome_single by done.
  rewrite bind_run. unfold replacement_for.
  rewrite bool_decide_eq_true_2 by done.
  rewrite bind_run, Hsub, Hstr. unfold ret.
  by rewrite Hv, GetSubstitution_matched.
Qed.

(** X15: two markers side by side are matched as one: the keyword is the
    two keywords joined, its value replaces the first marker, and the
    second marker stays in the text. *)
Theorem adjacent_markers_merge (sub : string + Config → M W Attribute)
    (a : Attribute) (l k1 k2 r : string) (st : state W) :
  without is_open l = true →
  without is_open k1 = true → without is_close k1 = true →
  without is_line_terminator k1 = true →
  without is_open k2 = true → without is_close k2 = true →
  without is_line_terminator k2 = true →
  without is_open r = true →
  let template :=
    l +:+ "{{" +:+ k1 +:+ "}}" +:+ "{{" +:+ k2 +:+ "}}" +:+ r in
  translateOutcome Dice_roll TABLES sub a template st =
    (v ← replacement_for Dice_roll TABLES sub a (k1 +:+ k2) template;
     ret (l +:+
          GetSubstitution ("{{" +:+ k1 +:+ "}}") l
            ("{{" +:+ k2 +:+ "}}" +:+ r) [k1] (ToString v) +:+
          "{{" +:+ k2 +:+ "}}" +:+ r)) st.
Proof.
  intros Hl H1o H1c H1l H2o H2c H2l Hr template. unfold translateOutcome.
  unfold template at 1. rewrite match_markers_adjacent by done.
  cbn [forEach].
  assert (strip_braces ("{{" +:+ k1 +:+ "}}" +:+ "{{" +:+ k2 +:+ "}}")
          = k1 +:+ k2) as ->.
  { rewrite !strip_braces_app, (strip_braces_free k1), (strip_braces_free k2)
      by done.
    change (strip_braces "{{") with "". change (strip_braces "}}") with "".
    by rewrite !StrFacts.app_nil_l, StrFacts.app_nil_r. }
  unfold mbind, M_bind, bind, ret.
  destruct (replacement_for _ _ _ _ _ _ _) as [[v| |] st']; [|done..].
  unfold replace_marker, template.
  by rewrite (find_marker_simple l k1 ("{{" +:+ k2 +:+ "}}" +:+ r)) by done.
Qed.

(** X16: two markers with text between them, both dice expressions:
    they are rolled from left to right and each is replaced by its own
    total (both print in positional notation). *)
Theorem two_dice_markers_in_order (sub : string + Config → M W Attribute)
    (a : Attribute) (l k1 m k2 r : string) (d1 d2 : DiceRollResult)
    (w1 w2 : W) (st : state W) :
  without is_open l = true →
  without is_open k1 = true → without is_close k1 = true →
  without is_line_terminator k1 = true →
  m ≠ "" → without is_open m = true →
  without is_open k2 = true → without is_close k2 = true →
  without is_line_terminator k2 = true →
  without is_open r = true →
  TABLES !! k1 = None → k1 ≠ "extra" →
  TABLES !! k2 = None → k2 ≠ "extra" →
  Dice_roll k1 (world st) = (Some d1, w1) →
  Dice_roll k2 w1 = (Some d2, w2) →
  positional (total d1) → positional (total d2) →
  translateOutcome Dice_roll TABLES sub a
    (l +:+ "{{" +:+ k1 +:+ "}}" +:+ m +:+ "{{" +:+ k2 +:+ "}}" +:+ r) st
    = (Normal (l +:+ number_to_string (Int (total d1)) +:+ m +:+
               number_to_string (Int (total d2)) +:+ r),
       {| heap := heap st; world := w2 |}).
Proof.
  intros Hl H1o H1c H1l Hne Hm H2o H2c H2l Hr Hk1 He1 Hk2 He2 Hd1 Hd2 _ _.
  assert (∀ k d w (s : state W) text, TABLES !! k = None → k ≠ "extra" →
            Dice_roll k (world s) = (Some d, w) →
            replacement_for Dice_roll TABLES sub a k text s =
              (Normal (VNumber (Int (total d))),
               {| heap := heap s; world := w |})) as Hrep.
  { intros k d w s text Hk He Hd. unfold replacement_for.
    rewrite bool_decide_eq_false_2 by (rewrite Hk; by intros [? ?]).
    rewrite bool_decide_eq_false_2 by done.
    rewrite bind_run. unfold ret at 1. cbn [extra empty_row].
    rewrite bind_run. unfold dice_roll at 1. by rewrite Hd. }
  unfold translateOutcome. rewrite match_markers_apart by done.
  cbn [forEach]. rewrite !strip_braces_marker by done.
  rewrite bind_run, bind_run, (Hrep k1 d1 w1) by done. unfold ret at 1.
  assert (replace_marker
            (l +:+ "{{" +:+ k1 +:+ "}}" +:+ m +:+ "{{" +:+ k2 +:+ "}}" +:+ r)
            (VNumber (Int (total d1)))
          = (l +:+ number_to_string (Int (total d1)) +:+ m) +:+
            "{{" +:+ k2 +:+ "}}" +:+ r) as ->.
  { unfold replace_marker.
    rewrite (find_marker_simple l k1 (m +:+ "{{" +:+ k2 +:+ "}}" +:+ r))
      by done.
    cbn [ToString].
    rewrite GetSubstitution_dollar_free
      by apply number_to_string_dollar_free.
    by rewrite !StrFacts.app_assoc. }
  rewrite bind_run, bind_run, (Hrep k2 d2 w2) by done. unfold ret.
  unfold replace_marker.
  rewrite find_marker_simple; [|by
    rewrite !without_app, Hl, Hm, number_to_string_without_open|done..].
  cbn [ToString].
  rewrite GetSubstitution_dollar_free by apply number_to_string_dollar_free.
  by rewrite !StrFacts.app_assoc.
Qed.

(** *** Lookup keys *)

Lemma lookup_key_findable (lookup v : value) :
  strict_eq (lookup_key lookup) v = true → findable v.
Proof.
  intros H. pose proof (strict_eq_eq _ _ H) as <-. revert H.
  unfold lookup_key. destruct (negb (isNaN lookup)) eqn:E.
  - by destruct (parseInt lookup).
  - destruct lookup as [| |b|[z|]|s|x|x]; cbn in *; try done.
    by destruct (is_numeric_string s).
Qed.

(** X17: looking up the decimal string of an integer (one that a
    number holds exactly) is looking up the integer. *)
Theorem find_by_decimal_string (a : Attribute) (z : Z) (st : state W) :
  safe_integer z →
  find a (VString (number_to_string (Int z))) st =
  find a (VNumber (Int z)) st.
Proof.
  intros _. unfold find.
  change (isNaN (VString ?s)) with (negb (is_numeric_string s)).
  change (isNaN (VNumber (Int z))) with false.
  by rewrite is_numeric_decimal, parseInt_decimal, parseInt_Int.
Qed.

(** X18: the row [find] returns has an outcome value that is a
    number, a string that does not read as a number, an object or
    [undefined]: a row whose outcome value is a numeric string, a
    boolean or [null] is found by no lookup value. *)
Theorem found_row_has_a_findable_outcome (a : Attribute) (t : Table)
    (lookup : value) (st st' : state W) (l : nat) (o : Row) :
  table a = Some t →
  rows_exist (heap st) (outcomes t) →
  find a lookup st = (Normal (VObject l), st') →
  heap st !! l = Some o →
  findable (outcome o).
Proof.
  intros Ht Hex Hfind Ho. rewrite (find_run a t) in Hfind by done.
  injection Hfind as Hfind _.
  destruct (last_where_result (λ o, strict_eq (lookup_key lookup) (outcome o))
              (heap st) (outcomes t)) as [E|(l' & o' & E & _ & Ho' & Hp)].
  - by rewrite E in Hfind.
  - rewrite E in Hfind. injection Hfind as ->.
    rewrite Ho in Ho'. injection Ho' as <-.
    by apply (lookup_key_findable lookup).
Qed.

(** *** The options of a table *)

Lemma forEach_collect (ls : list nat) (opts : list value) (st : state W) :
  rows_exist (heap st) ls →
  ∃ opts',
    forEach ls (λ opts l, o ← read l; ret (Set_add opts (outcome o))) opts st
      = (Normal opts', st) ∧
    (distinct opts → distinct opts') ∧
    ∀ v, v ∈ opts' ↔
         v ∈ opts ∨ ∃ l o, l ∈ ls ∧ heap st !! l = Some o ∧ outcome o = v.
Proof.
  revert opts. induction ls as [|l ls IH]; intros opts Hex.
  - exists opts. split; [done|]. split; [done|]. intros v. split; [auto|].
    intros [H|(l & o & Hin & _)]; [done|]. by apply elem_of_nil in Hin.
  - apply Forall_cons in Hex as [[o Ho] Hex].
    destruct (IH (Set_add opts (outcome o)) Hex) as (opts' & Hrun & Hd & Hin).
    exists opts'. split; [|split].
    + cbn [forEach]. rewrite bind_run, bind_run, (read_Some l o) by done.
      unfold ret at 1. exact Hrun.
    + intros H. by apply Hd, Set_add_distinct.
    + intros v. rewrite Hin, Set_add_elem. split.
      * intros [[H| ->]|(l' & o' & Hl' & Ho' & Hv)]; [by left|..].
        -- right. exists l, o. split; [apply list_elem_of_here|done].
        -- right. exists l', o'. split; [by apply list_elem_of_further|done].
      * intros [H|(l' & o' & [->|Hl']%elem_of_cons & Ho' & Hv)];
          [by left; left| |].
        -- left. right. by simplify_eq.
        -- right. by exists l', o'.
Qed.

(** X19: the static [options]: without a table under the key of the
    name it throws; otherwise it returns the outcome values of the
    table's rows, each of them once, and changes nothing. *)
Theorem options_are_the_distinct_outcomes (tableName : string)
    (st : state W) :
  (TABLES !! toKey tableName = None →
   CharacterAttribute.options TABLES tableName st = (Throw TypeError, st)) ∧
  ∀ t, TABLES !! toKey tableName = Some t →
       rows_exist (heap st) (outcomes t) →
       ∃ opts,
         CharacterAttribute.options TABLES tableName st = (Normal opts, st) ∧
         distinct opts ∧
         ∀ v, v ∈ opts ↔
              ∃ l o, l ∈ outcomes t ∧ heap st !! l = Some o ∧ outcome o = v.
Proof.
  unfold CharacterAttribute.options. split.
  - intros ->. by rewrite bind_run.
  - intros t -> Hex. rewrite bind_run. unfold ret at 1.
    destruct (forEach_collect (outcomes t) [] st Hex)
      as (opts & Hrun & Hd & Hin).
    exists opts. split; [done|]. split.
    + apply Hd. intros i j v w Hi. by rewrite lookup_nil in Hi.
    + intros v. rewrite Hin. split; [|auto].
      intros [H|H]; [by apply elem_of_nil in H|done].
Qed.

(** *** The race *)

(** X20: [new Race(options)] resolves the attribute that the options
    of the constructor configure.  Unless [fetch] is ['random'], the
    table is [race-full] whatever table name is given; with
    ['random'] it is the table of the given name, [race] when none is
    given.  ['random-full'] stands for a random selection. *)
Theorem Race_table_and_fetch (depth : nat) (options : option Config)
    (st : state W) :
  let given := default VUndefined (options ≫= cfg_fetch) in
  let a := configured (inr (Race_options options)) in
  Race Math_random Dice_roll TABLES (S depth) options st =
    generate Math_random Dice_roll TABLES (new depth) a st ∧
  table a =
    (if strict_eq given (VString "random")
     then TABLES !! toKey (default "race" (options ≫= cfg_tableName))
     else TABLES !! "race-full") ∧
  fetch a =
    (if truthy given && negb (strict_eq given (VString "random-full"))
     then given else VString "random").
Proof.
  intros given a. split; [done|].
  unfold a, given, Race_options.
  destruct options as [[n [f|] m]|]; [|by destruct m|done].
  change (default VUndefined (Some _ ≫= cfg_fetch)) with f.
  destruct (strict_eq f (VString "random")) eqn:E; cbn [negb].
  - apply strict_eq_eq in E as ->. by destruct m.
  - destruct (strict_eq f (VString "random-full")) eqn:E'.
    + apply strict_eq_eq in E' as ->. by destruct m.
    + rewrite andb_true_r. split; [by destruct m|].
      unfold fetch.
      match goal with
      | |- context [_fetch ?x] => assert (_fetch x = f) as -> by by destruct m
      end.
      by destruct (truthy f).
Qed.

(** *** A table that refers to itself *)

(** X21: when every draw is a double in [[0,1)], a random table whose
    only row has a template with a marker for the table itself never
    resolves, whatever nesting is allowed: every attribute constructs
    another one of the same table. *)
Theorem self_reference_never_resolves (k : string) (t : Table) (row : nat)
    (o : Row) (pre post : string) :
  (∀ w, is_double (Math_random w).1 ∧
        (0 <= (Math_random w).1)%Q ∧ ((Math_random w).1 < 1)%Q) →
  key_format k = true →
  TABLES !! k = Some t →
  roll t = "random" → outcomes t = [row] →
  translate o = Some (pre +:+ "{{" +:+ k +:+ "}}" +:+ post) →
  without is_open pre = true →
  without is_open k = true → without is_close k = true →
  without is_line_terminator k = true →
  without is_open post = true →
  ∀ depth st, heap st !! row = Some o →
              (new depth (inl k) st).1 = OutOfFuel.
Proof.
  intros Hdraw Hkey Hk Hroll Hrows Ht Hpre Hko Hkc Hkl Hpost.
  induction depth as [|depth IH]; intros st Ho; [done|].
  cbn [new_CharacterAttribute]. unfold constructor.
  assert (table (configured (inl k)) = Some t) as Htable.
  { destruct (configured_by_name k) as [_ ->].
    unfold toKey. by rewrite dash_lower_fixed. }
  rewrite (generate_select _ _ t) by (done || apply configured_fresh).
  rewrite bool_decide_eq_true_2 by done.
  destruct (Math_random (world st)) as [u w'] eqn:Hu.
  rewrite bind_run, (randomRow_run _ t u w') by done. cbv zeta.
  rewrite Hrows. cbn [length].
  assert (Qfloor (Number_multiply u (inject_Z (Z.of_nat 1))) = 0) as ->.
  { pose proof (Hdraw (world st)) as (Hd & H0 & H1).
    rewrite Hu in Hd, H0, H1. cbn [fst] in Hd, H0, H1.
    change (Z.of_nat 1) with 1.
    pose proof (random_index u 1 Hd H0 H1). lia. }
  change (at_index [row] 0) with (VObject row).
  unfold set_data. rewrite bind_run, (read_Some row o) by done.
  rewrite bind_run. unfold alloc at 1. rewrite Ht, nonempty_template.
  rewrite bind_run, translateOutcome_single by done.
  rewrite bind_run. unfold replacement_for.
  rewrite bool_decide_eq_true_2 by by rewrite Hk.
  rewrite bind_run.
  match goal with
  | |- context [new depth (inl k) ?s] =>
      pose proof (IH s) as Hrec; destruct (new depth (inl k) s) as [[| |] s']
  end; cbn [fst] in Hrec |- *; try done.
  - discriminate Hrec. cbn [heap]. by apply lookup_app_l_Some.
  - discriminate Hrec. cbn [heap]. by apply lookup_app_l_Some.
Qed.

End Properties.

(** ** The properties on the sample tables *)

Module Scenarios.
Import Sample.

Lemma first_at_computed (p s : string) (n : nat) :
  Str.index_of p s = Some n →
  Str.first_at p (Str.take n s) (Str.drop (n + String.length p) s) s.
Proof. intros H. exact (proj1 (StrFacts.index_of_Some p s n H)). Defined.

(** *** Dice modifiers *)

Lemma C10_witness :
  roll_ Tape.Dice_roll (attribute (inl "standing")) "1d100+MOD" =
    dice_roll Tape.Dice_roll ("1d100+" +:+ "undefined" +:+ "").
Proof.
  refine (proj2 (proj2 (proj2
    (C10_roll_sentinel_is_false Tape.Dice_roll TABLES new_object
       "1d100+MOD" "1d100+" "" _))) (inl "standing") _).
  - exact (first_at_computed "MOD" "1d100+MOD" 6 eq_refl).
  - exact I.
Defined.

Lemma C5_witness :
  roll_ Tape.Dice_roll minus_two "1d6+MOD" =
    dice_roll Tape.Dice_roll ("1d6+" +:+ number_to_string (Int (-2)) +:+ "").
Proof.
  apply (C5_modifier_substitution Tape.Dice_roll minus_two (-2)
           "1d6+MOD" "1d6+" "").
  - reflexivity.
  - reflexivity.
  - exact (first_at_computed "MOD" "1d6+MOD" 4 eq_refl).
Defined.

(** With [rollModifier] -2 the expression rolled for ["1d6+MOD"] is
    ["1d6+-2"], not ["1d6-2"], and a second [MOD] stays. *)
Lemma C5_counterexample :
  roll_expression minus_two "1d6+MOD" = "1d6+-2" ∧
  roll_expression minus_two "1d6+MOD" ≠ "1d6-2" ∧
  roll_expression minus_two "MOD+MOD" = "-2+MOD" ∧
  roll_ Tape.Dice_roll minus_two "1d6+MOD" (start [])
    ≠ dice_roll Tape.Dice_roll "1d6-2" (start []).
Proof. repeat split; done. Qed.

(** *** Selection by a dice roll *)

Lemma C2_witness :
  ∃ a' st', new 1 plus_five (start [(99 # 100)%Q]) = (Normal a', st') ∧
            world st' = [] ∧
            rollResult a' = VDice {| total := 105; rolls := [100] |} ∧
            toString a' st' = (Normal VUndefined, st').
Proof.
  refine (proj2
    (C2_total_outside_every_range Tape.Math_random Tape.Dice_roll TABLES
       0 plus_five standing {| total := 105; rolls := [100] |} []
       (start [(99 # 100)%Q]) _ _ _ _ _ _)).
  - reflexivity.
  - reflexivity.
  - discriminate.
  - repeat constructor; by eexists.
  - reflexivity.
  - intros l o Hin Ho. cbn in Hin.
    repeat (apply elem_of_cons in Hin as [->|Hin];
            [cbn in Ho; by simplify_eq|]).
    by apply elem_of_nil in Hin.
Defined.

(** A total of 105 on a table that covers 1-100: the resolution returns
    normally, with no outcome, and raises nothing. *)
Lemma C2_counterexample :
  (∃ a', (new 1 plus_five (start [(99 # 100)%Q])).1 = Normal a' ∧
         rollResult a' = VDice {| total := 105; rolls := [100] |} ∧
         (toString a' (new 1 plus_five (start [(99 # 100)%Q])).2).1
           = Normal VUndefined) ∧
  ∀ e, (new 1 plus_five (start [(99 # 100)%Q])).1 ≠ Throw e.
Proof. split; [by eexists|done]. Qed.

(** C3 on a table whose two rows both contain the total 37: the later
    row, [Anyone], is returned and not the earlier [Commoner]. *)
Theorem C3_later_row_wins :
  rows !! 5%nat = Some (ranged 1 50 "Commoner") ∧
  rows !! 6%nat = Some (ranged 1 100 "Anyone") ∧
  in_range 37 (ranged 1 50 "Commoner") = true ∧
  in_range 37 (ranged 1 100 "Anyone") = true ∧
  rollForRow Tape.Dice_roll (attribute (inl "overlap")) (start [(36 # 100)%Q]) =
    (Normal (VObject 6,
             set_rollResult (VDice {| total := 37; rolls := [37] |})
               (attribute (inl "overlap"))),
     start []) ∧
  ∃ a', (new 1 (inl "overlap") (start [(36 # 100)%Q])).1 = Normal a' ∧
        (toString a' (new 1 (inl "overlap") (start [(36 # 100)%Q])).2).1
          = Normal (VString "Anyone").
Proof. repeat split; try done. by eexists. Qed.

(** *** Lookup by value *)

Lemma C7_witness :
  find (attribute (inl "relationship")) (VString "Rival") (start [])
    = (Normal (VObject 1), start []).
Proof.
  refine (proj1
    (C7_find_row_by_own_outcome (attribute (inl "relationship"))
       relationship (start []) 1 1 (plain (VString "Rival")) _ _ _ _ _ _)).
  - reflexivity.
  - repeat constructor; by eexists.
  - reflexivity.
  - reflexivity.
  - reflexivity.
  - intros j l' o' Hj Hl Ho.
    destruct j as [|[|[|j]]]; cbn in Hl; simplify_eq; cbn in Ho;
      by simplify_eq.
Defined.

(** Row 7 holds the outcome value ["3"], a string; looking that value
    up does not return row 7. *)
Lemma C7_counterexample :
  rows !! 7%nat = Some (plain (VString "3")) ∧
  TABLES !! "siblings" = Some {| roll := "random"; outcomes := [7; 8]%nat |} ∧
  find (attribute (inl "siblings")) (VString "3") (start [])
    = (Normal (VObject 8), start []) ∧
  find (attribute (inl "siblings")) (VString "3") (start [])
    ≠ (Normal (VObject 7), start []).
Proof. repeat split; done. Qed.

(** C1 on the relationship table with [fetch] set to ["Enemy"], which no
    row has: [find] returns [false], and the resolution still returns at
    once -- nothing is drawn, no row is selected, the data are [{}]. *)
Theorem C1_lookup_miss_selects_nothing :
  let config := options "relationship" (Some (VString "Enemy")) None in
  find (attribute config) (VString "Enemy") (start [(1 # 2)%Q])
    = (Normal (VBool false), start [(1 # 2)%Q]) ∧
  ∃ a', new 1 config (start [(1 # 2)%Q]) =
          (Normal a', after [empty_row] [(1 # 2)%Q]) ∧
        rollResult a' = VUndefined ∧
        data a' = VObject 11 ∧
        (toString a' (after [empty_row] [(1 # 2)%Q])).1
          = Normal VUndefined.
Proof. split; [done|]. by eexists. Qed.

(** *** Selection by a random index *)

(** The draw just below [2/3] on the three rows of the relationship
    table: the exact product is below 2 and the product of the doubles
    is 2, so the index recorded is 2 and the row is [Stranger]. *)
Lemma C4_witness :
  ∃ a', new 1 (inl "relationship") (start [below_two_thirds])
          = (Normal a', after [plain (VString "Stranger")] []) ∧
        rollResult a' = VNumber (Int 2) ∧
        Qfloor (below_two_thirds * inject_Z 3) = 1 ∧
        ∃ l, at_index (outcomes relationship) 2 = VObject l.
Proof.
  pose proof (C4_random_row_records_index Tape.Math_random Tape.Dice_roll
                TABLES 0 (inl "relationship") relationship below_two_thirds
                [] (start [below_two_thirds])
                eq_refl eq_refl eq_refl eq_refl) as (_ & Hroll & Hrow & _).
  assert (new 1 (inl "relationship") (start [below_two_thirds])
          = (Normal (set__data (VObject 11)
                       (set_rollResult (VNumber (Int 2))
                          (attribute (inl "relationship")))),
             after [plain (VString "Stranger")] [])) as Hrun
    by reflexivity.
  eexists. split; [exact Hrun|]. split; [exact (Hroll _ _ Hrun)|].
  split; [reflexivity|].
  destruct Hrow as (_ & (l & _ & Hl) & _).
  - exists 6004799503160661, (-53).
    split; [reflexivity|]. split; [discriminate|reflexivity].
  - discriminate.
  - reflexivity.
  - reflexivity.
  - by exists l.
Defined.

(** After resolving on the relationship table, [rollResult] is the
    number 1: neither a dice roll result nor unset. *)
Lemma C4_counterexample :
  ∃ a', (new 1 (inl "relationship") (start [(1 # 2)%Q])).1 = Normal a' ∧
        rollResult a' = VNumber (Int 1) ∧
        rollResult a' ≠ VUndefined ∧
        ∀ r, rollResult a' ≠ VDice r.
Proof. eexists. repeat split; done. Qed.

(** *** Placeholder expansion *)

Lemma C8_witness :
  translateOutcome Tape.Dice_roll TABLES (new 1)
    (attribute (inl "bond")) "Raised by wolves" (start [])
  = (Normal "Raised by wolves", start []).
Proof.
  apply (C8_plain_text_unchanged Tape.Dice_roll TABLES (new 1)
           (attribute (inl "bond")) "Raised by wolves" (start [])).
  apply JSFacts.no_braces_no_marker. reflexivity.
Defined.

Lemma C6_witness :
  replacement_for Tape.Dice_roll TABLES (new 1) tale "extra"
    "1 {{extra}}" (start [])
  = (Normal (VNumber (Int 11)), start []).
Proof.
  refine (proj1 (proj2
    (C6_marker_precedence Tape.Dice_roll TABLES (new 1) tale "extra"
       "1 {{extra}}" (start []))) _ _ 9%nat _ _ _ _ _); reflexivity.
Defined.

(** On ["{{1d1}} {{extra}}"] the extra-text function, which returns the
    length of its argument, is given the text ["1 {{extra}}"] and not
    the original template. *)
Lemma C6_counterexample :
  translateOutcome Tape.Dice_roll TABLES (new 1) tale "{{1d1}} {{extra}}"
    (start [(1 # 2)%Q]) = (Normal "1 11", start []) ∧
  expand_as_specified Tape.Dice_roll TABLES (new 1) tale "{{1d1}} {{extra}}"
    (start [(1 # 2)%Q]) = (Normal "1 17", start []) ∧
  translateOutcome Tape.Dice_roll TABLES (new 1) tale "{{1d1}} {{extra}}"
    (start [(1 # 2)%Q])
  ≠ expand_as_specified Tape.Dice_roll TABLES (new 1) tale
      "{{1d1}} {{extra}}" (start [(1 # 2)%Q]) ∧
  ∃ a', (new 1 (inl "tale") (start [(1 # 2)%Q; (1 # 2)%Q])).1 = Normal a' ∧
        (toString a' (new 1 (inl "tale") (start [(1 # 2)%Q; (1 # 2)%Q])).2).1
          = Normal (VString "1 11").
Proof. repeat split; try done. by eexists. Qed.

(** *** The heap across resolutions *)

Lemma C9_witness :
  rows `prefix_of`
    heap (resolve_all Tape.Math_random Tape.Dice_roll TABLES 2
            [inl "bond"; inl "tale"; plus_five]
            (start [(1 # 2)%Q; (1 # 2)%Q; (1 # 2)%Q; (1 # 2)%Q; (1 # 2)%Q])).
Proof.
  exact (proj1
    (C9_rows_keep_their_fields Tape.Math_random Tape.Dice_roll TABLES 2
       [inl "bond"; inl "tale"; plus_five]
       (start [(1 # 2)%Q; (1 # 2)%Q; (1 # 2)%Q; (1 # 2)%Q; (1 # 2)%Q]))).
Defined.

End Scenarios.

(** ** The further properties on the sample tables *)

Module Instances.
Import Sample.

(** *** Keys and tables *)

Lemma unknown_table_throws_witness :
  new 1 (inl "Lost Tribe") (start [(1 # 2)%Q])
    = (Throw TypeError, start [(1 # 2)%Q]).
Proof.
  apply (unknown_table_throws Tape.Math_random Tape.Dice_roll TABLES
           0 (inl "Lost Tribe") (start [(1 # 2)%Q])).
  reflexivity.
Defined.

Lemma roll_without_MOD_witness :
  roll_ Tape.Dice_roll minus_two "1d100" = dice_roll Tape.Dice_roll "1d100".
Proof.
  apply (roll_without_MOD Tape.Dice_roll minus_two "1d100").
  apply StrFacts.index_of_None. reflexivity.
Defined.

(** *** Scans *)

Lemma find_false_iff_no_row_witness :
  ∃ found,
    find (attribute (inl "relationship")) (VString "Enemy") (start [])
      = (Normal found, start []) ∧
    (found = VBool false ↔
       ∀ l o, l ∈ outcomes relationship → heap (start []) !! l = Some o →
              strict_eq (lookup_key (VString "Enemy")) (outcome o) = false) ∧
    (found ≠ VBool false →
       ∃ l o, found = VObject l ∧ l ∈ outcomes relationship ∧
              heap (start []) !! l = Some o ∧
              strict_eq (lookup_key (VString "Enemy")) (outcome o) = true).
Proof.
  apply (find_false_iff_no_row (attribute (inl "relationship")) relationship
           (VString "Enemy") (start [])).
  - reflexivity.
  - repeat constructor; by eexists.
Defined.

Lemma rollForRow_finds_a_row_witness :
  ∃ found,
    rollForRow Tape.Dice_roll (attribute (inl "background"))
      (start [(36 # 100)%Q])
      = (Normal (found,
                 set_rollResult (VDice {| total := 37; rolls := [37] |})
                   (attribute (inl "background"))),
         start []) ∧
    (found = VBool false ↔
       ∀ l o, l ∈ [3; 4]%nat → rows !! l = Some o → ¬ contains o 37) ∧
    (found ≠ VBool false →
       ∃ l o, found = VObject l ∧ l ∈ [3; 4]%nat ∧ rows !! l = Some o ∧
              contains o 37).
Proof.
  apply (rollForRow_finds_a_row Tape.Dice_roll (attribute (inl "background"))
           {| roll := "1d100"; outcomes := [3; 4]%nat |}
           {| total := 37; rolls := [37] |} [] (start [(36 # 100)%Q])).
  - reflexivity.
  - repeat constructor; by eexists.
  - reflexivity.
Defined.

(** *** Resolutions *)

Lemma fetch_by_value_selects_the_row_witness :
  ∃ a', new 1 (options "relationship" (Some (VString "Rival")) None)
          (start [(1 # 2)%Q])
          = (Normal a', after [plain (VString "Rival")] [(1 # 2)%Q]) ∧
        rollResult a' = VUndefined ∧
        toString a' (after [plain (VString "Rival")] [(1 # 2)%Q])
          = (Normal (VString "Rival"),
             after [plain (VString "Rival")] [(1 # 2)%Q]).
Proof.
  refine (proj2
    (fetch_by_value_selects_the_row Tape.Math_random Tape.Dice_roll TABLES
       0 (options "relationship" (Some (VString "Rival")) None)
       relationship (start [(1 # 2)%Q]) 1 1 (plain (VString "Rival"))
       _ _ _ _ _ _ _ _) _).
  - reflexivity.
  - repeat constructor; by eexists.
  - reflexivity.
  - reflexivity.
  - reflexivity.
  - discriminate.
  - reflexivity.
  - intros j l' o' Hj Hl Ho.
    destruct j as [|[|[|j]]]; cbn in Hl; simplify_eq; cbn in Ho;
      by simplify_eq.
  - by left.
Defined.

Lemma falsy_fetch_is_random_witness :
  fetch (attribute (options "relationship" (Some (VString "")) None))
    = VString "random" ∧
  new 1 (options "relationship" (Some (VString "")) None) (start [(1 # 2)%Q])
    = ('(r, a) ← randomRow Tape.Math_random
                   (attribute (options "relationship" (Some (VString "")) None));
       set_data Tape.Dice_roll TABLES (new 0) a r) (start [(1 # 2)%Q]).
Proof.
  apply (falsy_fetch_is_random Tape.Math_random Tape.Dice_roll TABLES 0
           {| cfg_tableName := Some "relationship";
              cfg_fetch := Some (VString ""); cfg_rollModifier := None |}
           (VString "") relationship (start [(1 # 2)%Q])); reflexivity.
Defined.

Lemma random_resolution_copies_the_row_witness :
  ∃ a', new 1 (inl "relationship") (start [below_two_thirds])
          = (Normal a', after [plain (VString "Stranger")] []) ∧
        data a' = VObject 11 ∧
        heap (after [plain (VString "Stranger")] []) !! 11%nat
          = Some (plain (VString "Stranger")) ∧
        toString a' (after [plain (VString "Stranger")] [])
          = (Normal (VString "Stranger"),
             after [plain (VString "Stranger")] []).
Proof.
  apply (random_resolution_copies_the_row Tape.Math_random Tape.Dice_roll
           TABLES 0 (inl "relationship") relationship below_two_thirds []
           (start [below_two_thirds]) 2 (plain (VString "Stranger")));
    try reflexivity.
  - discriminate.
  - by left.
Defined.

Lemma dice_resolution_copies_the_row_witness :
  ∃ a', new 1 (inl "background") (start [(36 # 100)%Q])
          = (Normal a', after [ranged 1 50 "Peasant"] []) ∧
        rollResult a' = VDice {| total := 37; rolls := [37] |} ∧
        data a' = VObject 11 ∧
        heap (after [ranged 1 50 "Peasant"] []) !! 11%nat
          = Some (ranged 1 50 "Peasant") ∧
        toString a' (after [ranged 1 50 "Peasant"] [])
          = (Normal (VString "Peasant"), after [ranged 1 50 "Peasant"] []).
Proof.
  apply (dice_resolution_copies_the_row Tape.Math_random Tape.Dice_roll
           TABLES 0 (inl "background")
           {| roll := "1d100"; outcomes := [3; 4]%nat |}
           {| total := 37; rolls := [37] |} [] (start [(36 # 100)%Q])
           0 3 (ranged 1 50 "Peasant")); try reflexivity.
  - discriminate.
  - repeat constructor; by eexists.
  - exists 1, 50. repeat split; (reflexivity || (cbn; lia)).
  - intros j l' o' Hj Hl Ho.
    destruct j as [|[|j]]; cbn in Hl; simplify_eq; cbn in Ho; simplify_eq.
    intros (lo & hi & Hlo & Hhi & Hin). cbn in Hlo, Hhi, Hin.
    simplify_eq. lia.
  - by left.
Defined.

Lemma empty_random_table_witness :
  ∃ a', Edge.new 1 (inl "void") Edge.start
          = (Normal a', Edge.after [empty_row]) ∧
        rollResult a' = VNumber (Int 0) ∧
        toString a' (Edge.after [empty_row])
          = (Normal VUndefined, Edge.after [empty_row]).
Proof.
  apply (empty_random_table Still.Math_random Still.Dice_roll Edge.TABLES
           0 (inl "void") {| roll := "random"; outcomes := [] |} 0%Q tt
           Edge.start); reflexivity.
Defined.

Lemma data_is_a_copy_witness :
  let st' := after [told "Bond" "Met a Rival" None; plain (VString "Rival")]
               [] in
  set_data Tape.Dice_roll TABLES (new 1) (attribute (inl "bond"))
    (VObject 10) (start [(1 # 2)%Q])
    = (Normal (set__data (VObject 11) (attribute (inl "bond"))), st') ∧
  data (set__data (VObject 11) (attribute (inl "bond"))) = VObject 11 ∧
  heap st' !! 10%nat = Some (told "Bond" "Met a {{relationship}}" None) ∧
  ∃ o', heap st' !! 11%nat = Some o' ∧
        copy_of (told "Bond" "Met a {{relationship}}" None) o' ∧
        (untemplated (told "Bond" "Met a {{relationship}}" None) →
         o' = told "Bond" "Met a {{relationship}}" None).
Proof.
  split; [reflexivity|].
  apply (data_is_a_copy Tape.Math_random Tape.Dice_roll TABLES 1
           (attribute (inl "bond"))
           (set__data (VObject 11) (attribute (inl "bond"))) 10
           (told "Bond" "Met a {{relationship}}" None)
           (start [(1 # 2)%Q])
           (after [told "Bond" "Met a Rival" None; plain (VString "Rival")]
              [])); reflexivity.
Defined.

Lemma expanded_template_is_the_string_witness :
  ∃ a' st3,
    set_data Tape.Dice_roll TABLES (new 1) (attribute (inl "bond"))
      (VObject 10) (start [(1 # 2)%Q]) = (Normal a', st3) ∧
    world st3 = [] ∧
    heap st3 !! 11%nat = Some (told "Bond" "Met a Rival" None) ∧
    toString a' st3 = (Normal (VString "Met a Rival"), st3).
Proof.
  apply (expanded_template_is_the_string Tape.Math_random Tape.Dice_roll
           TABLES 1 (attribute (inl "bond")) 10
           (told "Bond" "Met a {{relationship}}" None)
           "Met a {{relationship}}" "Met a Rival" (start [(1 # 2)%Q])
           (after [told "Bond" "Met a {{relationship}}" None;
                   plain (VString "Rival")] [])); try reflexivity.
  discriminate.
Defined.

(** *** Expansions *)

Lemma table_marker_is_replaced_witness :
  translateOutcome Tape.Dice_roll TABLES (new 1) (attribute (inl "bond"))
    "Met a {{relationship}}" (start [(1 # 2)%Q])
  = (Normal "Met a Rival", after [plain (VString "Rival")] []).
Proof.
  refine (table_marker_is_replaced Tape.Dice_roll TABLES (new 1)
            (attribute (inl "bond")) _ "Met a " "relationship" ""
            (VString "Rival") (start [(1 # 2)%Q])
            (after [plain (VString "Rival")] []) _ _ _ _ _ _ _ _ _);
    try reflexivity.
  by eexists.
Defined.

Lemma dice_marker_is_replaced_witness :
  translateOutcome Tape.Dice_roll TABLES (new 1) (attribute (inl "bond"))
    "Has {{1d6}} siblings" (start [(1 # 2)%Q])
  = (Normal "Has 4 siblings", start []).
Proof.
  refine (dice_marker_is_replaced Tape.Dice_roll TABLES (new 1)
            (attribute (inl "bond")) "Has " "1d6" " siblings"
            {| total := 4; rolls := [4] |} [] (start [(1 # 2)%Q])
            _ _ _ _ _ _ _ _ _); try reflexivity.
  discriminate.
Defined.

Lemma dollar_ampersand_restores_marker_witness :
  translateOutcome Still.Dice_roll Edge.TABLES (Edge.new 1)
    (Edge.attribute (inl "echo")) "Pays {{price}}" Edge.start
  = (Normal "Pays 5 {{price}} coins",
     Edge.after [plain (VString "5 $& coins")]).
Proof.
  refine (dollar_ampersand_restores_marker Still.Dice_roll Edge.TABLES
            (Edge.new 1) (Edge.attribute (inl "echo")) _
            "Pays " "price" "" "5 " " coins" (VString "5 $& coins")
            Edge.start (Edge.after [plain (VString "5 $& coins")])
            _ _ _ _ _ _ _ _ _ _ _); try reflexivity.
  by eexists.
Defined.

Lemma adjacent_markers_merge_witness :
  translateOutcome Tape.Dice_roll TABLES (new 1) (attribute (inl "bond"))
    "{{1d1}}{{1d1}}" (start [(1 # 2)%Q])
  = (v ← replacement_for Tape.Dice_roll TABLES (new 1)
           (attribute (inl "bond")) "1d11d1" "{{1d1}}{{1d1}}";
     ret (GetSubstitution "{{1d1}}" "" "{{1d1}}" ["1d1"] (ToString v)
          +:+ "{{1d1}}")) (start [(1 # 2)%Q]).
Proof.
  exact (adjacent_markers_merge Tape.Dice_roll TABLES (new 1)
           (attribute (inl "bond")) "" "1d1" "1d1" "" (start [(1 # 2)%Q])
           eq_refl eq_refl eq_refl eq_refl eq_refl eq_refl eq_refl eq_refl).
Defined.

Lemma two_dice_markers_in_order_witness :
  translateOutcome Tape.Dice_roll TABLES (new 1) (attribute (inl "bond"))
    "{{1d6}} brothers and {{1d1}} sister" (start [(1 # 2)%Q; (1 # 2)%Q])
  = (Normal "4 brothers and 1 sister", start []).
Proof.
  refine (two_dice_markers_in_order Tape.Dice_roll TABLES (new 1)
            (attribute (inl "bond")) "" "1d6" " brothers and " "1d1"
            " sister" {| total := 4; rolls := [4] |}
            {| total := 1; rolls := [1] |} [(1 # 2)%Q] []
            (start [(1 # 2)%Q; (1 # 2)%Q])
            _ _ _ _ _ _ _ _ _ _ _ _ _ _ _ _ _ _);
    try reflexivity; discriminate.
Defined.

(** *** Lookup keys *)

Lemma find_by_decimal_string_witness :
  find (attribute (inl "siblings")) (VString (number_to_string (Int 3)))
    (start [])
  = find (attribute (inl "siblings")) (VNumber (Int 3)) (start []).
Proof.
  apply (find_by_decimal_string (attribute (inl "siblings")) 3 (start [])).
  reflexivity.
Defined.

Lemma found_row_has_a_findable_outcome_witness :
  findable (outcome (plain (VNumber (Int 3)))).
Proof.
  apply (found_row_has_a_findable_outcome (attribute (inl "siblings"))
           {| roll := "random"; outcomes := [7; 8]%nat |} (VString "3")
           (start []) (start []) 8 (plain (VNumber (Int 3)))).
  - reflexivity.
  - repeat constructor; by eexists.
  - reflexivity.
  - reflexivity.
Defined.

(** *** The options of a table *)

Lemma options_are_the_distinct_outcomes_witness :
  ∃ opts,
    CharacterAttribute.options TABLES "Relationship" (start [])
      = (Normal opts, start []) ∧
    distinct opts ∧
    ∀ v, v ∈ opts ↔
         ∃ l o, l ∈ [0; 1; 2]%nat ∧ rows !! l = Some o ∧ outcome o = v.
Proof.
  apply (proj2 (options_are_the_distinct_outcomes TABLES "Relationship"
                  (start [])) relationship).
  - reflexivity.
  - repeat constructor; by eexists.
Defined.

(** *** A table that refers to itself *)

Lemma self_reference_never_resolves_witness :
  (Edge.new 7 (inl "echo") Edge.start).1 = OutOfFuel.
Proof.
  apply (self_reference_never_resolves Still.Math_random Still.Dice_roll
           Edge.TABLES "echo" {| roll := "random"; outcomes := [0]%nat |}
           0 (told "Echo" "An {{echo}} of it" None) "An " " of it");
    try reflexivity.
  intros w. split; [|split; [apply Qle_refl|reflexivity]].
  exists 0, 0. split; [reflexivity|]. split; [discriminate|reflexivity].
Defined.

End Instances.
